(** * The S3 circuit breaker of weed/s3api/s3api_circuit_breaker.go

    A shallow embedding of [CircuitBreaker]: the configuration loader
    ([LoadS3ApiConfigurationFromBytes], [loadCircuitBreakerConfig]), the
    admission gate ([limit], [loadCounterAndCompare]) and the middleware
    wrapper ([Limit]), followed by the properties of the specification. *)

From Stdlib Require Import ZArith Lia String List.
From stdpp Require Import base option list strings gmap.

Open Scope Z_scope.

(** ** int64 arithmetic

    Thresholds, counters and content lengths are Go [int64]: values are
    integers of [-2^63, 2^63) and [+], [-], [atomic.Int64.Add] and
    [atomic.Int64.Sub] wrap around. *)

Definition int64 (z : Z) : Prop := - 2 ^ 63 <= z < 2 ^ 63.

Definition wrap64 (z : Z) : Z := (z + 2 ^ 63) mod 2 ^ 64 - 2 ^ 63.

Definition add64 (a b : Z) : Z := wrap64 (a + b).

Definition sub64 (a b : Z) : Z := wrap64 (a - b).

(** ** Data *)

Module s3err.
(** The three codes of package s3err that the breaker names. *)
Inductive ErrorCode : Set :=
| ErrNone
| ErrTooManyRequest
| ErrRequestBytesExceed.

Definition eqb (a b : ErrorCode) : bool :=
  match a, b with
  | ErrNone, ErrNone => true
  | ErrTooManyRequest, ErrTooManyRequest => true
  | ErrRequestBytesExceed, ErrRequestBytesExceed => true
  | _, _ => false
  end.
End s3err.

Module s3_pb.
(** [S3CircuitBreakerOptions]: [Actions] is a Go [map[string]int64];
    it is kept as the list of its entries in the order in which a
    [range] loop visits them, which Go leaves unspecified. *)
Record S3CircuitBreakerOptions : Type := {
  Enabled : bool;
  Actions : list (string * Z)
}.

(** [S3CircuitBreakerConfig]: [Global] may be nil; [Buckets] is a Go
    [map[string]*S3CircuitBreakerOptions], again in visiting order. *)
Record S3CircuitBreakerConfig : Type := {
  Global : option S3CircuitBreakerOptions;
  Buckets : list (string * S3CircuitBreakerOptions)
}.
End s3_pb.

(** [CircuitBreaker], without its mutex.  A counter is an
    [*atomic.Int64]; an entry of [counters] is never replaced or deleted
    once installed, so the pointer is identified with its key and the map
    holds the current value of each counter. *)
Record CircuitBreaker : Type := {
  Enabled : bool;
  counters : gmap string Z;
  limitations : gmap string Z
}.

(** What the gate uses of an [*http.Request]: the declared content length
    and the route variables of [mux.Vars]. *)
Record Request : Type := {
  ContentLength : Z;
  Vars : gmap string string
}.

(** A rollback closure [func() { counter.Sub(inc) }]: the counter it
    captured and the amount. *)
Record Release : Type := {
  rel_counter : string;
  rel_inc : Z
}.

(** What the wrapped handler function writes for a request: either the
    handler [f] ran, or [s3err.WriteErrorResponse] was called. *)
Inductive Reply (R : Type) : Type :=
| Served (body : R)
| Refused (code : s3err.ErrorCode).

Arguments Served {R} body.
Arguments Refused {R} code.

(** ** Shared state

    Requests are served by concurrent goroutines.  A run of one goroutine
    is a function of a [World]: the breaker, and [others], the schedule of
    what the other goroutines do to the counters meanwhile.  Each element
    of [others] is the batch of [Add]/[Sub] calls (counter, amount) that
    the others perform just before the next atomic counter operation of
    this goroutine; when the schedule is empty this goroutine runs alone. *)
Record World : Type := {
  breaker : CircuitBreaker;
  others : list (list (string * Z))
}.

Definition Run (A : Type) : Type := World -> A * World.

#[global] Instance run_ret : MRet Run := fun A (a : A) w => (a, w).

#[global] Instance run_bind : MBind Run :=
  fun A B (k : A -> Run B) (m : Run A) w => let (a, w') := m w in k a w'.

(** The value of the counter of [key]; a counter not installed yet
    counts as 0, the value it is installed with. *)
Definition counter_value (key : string) (cs : gmap string Z) : Z :=
  default 0 (cs !! key).

(** [counter.Add(d)] on the counter of [key]; [counter.Sub(d)] is
    [Add(-d)] in go.uber.org/atomic. *)
Definition store_add (key : string) (d : Z) (cs : gmap string Z) : gmap string Z :=
  <[key := add64 (counter_value key cs) d]> cs.

Definition store_sub (key : string) (d : Z) (cs : gmap string Z) : gmap string Z :=
  <[key := sub64 (counter_value key cs) d]> cs.

Definition others_run (batch : list (string * Z)) (cs : gmap string Z) : gmap string Z :=
  foldl (fun m kd => store_add kd.1 kd.2 m) cs batch.

Definition with_counters (cs : gmap string Z) (cb : CircuitBreaker) : CircuitBreaker :=
  {| Enabled := Enabled cb; counters := cs; limitations := limitations cb |}.

(** The other goroutines take their turn. *)
Definition yield : Run unit := fun w =>
  match others w with
  | [] => (tt, w)
  | batch :: rest =>
      (tt, {| breaker := with_counters (others_run batch (counters (breaker w))) (breaker w);
              others := rest |})
  end.

Definition get_breaker : Run CircuitBreaker := fun w => (breaker w, w).

Definition update_counters (f : gmap string Z -> gmap string Z) : Run unit := fun w =>
  (tt, {| breaker := with_counters (f (counters (breaker w))) (breaker w);
          others := others w |}).

(** Lines 154-163: the counter of [key], installed at 0 under the lock
    when the map has none. *)
Definition counter_install (key : string) : Run unit :=
  update_counters (fun cs =>
    match cs !! key with
    | Some _ => cs
    | None => <[key := 0]> cs
    end).

(** The atomic operations of [atomic.Int64].  Before each of them the
    other goroutines run their next batch, so that what a [Load] reads
    need not be what this goroutine last wrote. *)
Definition counter_Load (key : string) : Run Z :=
  yield ;; cb ← get_breaker; mret (counter_value key (counters cb)).

Definition counter_Add (key : string) (d : Z) : Run unit :=
  yield ;; update_counters (store_add key d).

Definition counter_Sub (key : string) (d : Z) : Run unit :=
  yield ;; update_counters (store_sub key d).

Definition run_release (rf : Release) : Run unit :=
  counter_Sub (rel_counter rf) (rel_inc rf).

(** ** Vocabulary of the properties *)

(** Equality of two integers as 64-bit values. *)
Definition eqm (a b : Z) : Prop := wrap64 a = wrap64 b.

(** Every counter of a store holds an [int64]. *)
Definition counters_ok (cs : gmap string Z) : Prop :=
  map_Forall (fun _ v => int64 v) cs.

(** What a batch of the other goroutines adds to the counter of [key]. *)
Fixpoint batch_sum (key : string) (batch : list (string * Z)) : Z :=
  match batch with
  | [] => 0
  | (k, d) :: rest => (if decide (k = key) then d else 0) + batch_sum key rest
  end.

(** The amount a goroutine holds on each counter through one increment. *)
Definition own_of (key : string) (d : Z) : string -> Z :=
  fun k => if decide (k = key) then d else 0.

(** The amount held through the increments that [rollback] will undo. *)
Fixpoint held (rollback : list Release) (k : string) : Z :=
  match rollback with
  | [] => 0
  | rf :: rest => own_of (rel_counter rf) (rel_inc rf) k + held rest k
  end.

(** From [cs] to [cs'] no counter is removed and counters stay [int64]. *)
Definition counters_grow (cs cs' : gmap string Z) : Prop :=
  (counters_ok cs -> counters_ok cs') /\
  forall key : string, is_Some (cs !! key) -> is_Some (cs' !! key).

(** [effect w w' own]: from [w] to [w'] the flag and the limit table are
    kept, no counter is removed, the others ran a prefix [done] of their
    schedule, and each counter moved by what the others added plus [own],
    the goroutine's own contribution. *)
Definition effect (w w' : World) (own : string -> Z) : Prop :=
  Enabled (breaker w') = Enabled (breaker w) /\
  limitations (breaker w') = limitations (breaker w) /\
  counters_grow (counters (breaker w)) (counters (breaker w')) /\
  exists done : list (list (string * Z)),
    others w = done ++ others w' /\
    forall key : string,
      eqm (counter_value key (counters (breaker w')))
          (counter_value key (counters (breaker w))
           + batch_sum key (concat done) + own key).

(** Splits an [effect] goal into its four parts. *)
Ltac effect_parts := unfold effect; split; [| split; [| split]].

(** The world in which the first [counter.Load()] of a check reads: the
    counter is installed and the others had their turn. *)
Definition at_first_load (key : string) (w : World) : World :=
  (yield (counter_install key w).2).2.

(** The world after [counter.Add(inc)]. *)
Definition after_add (key : string) (inc : Z) (w : World) : World :=
  (counter_Add key inc (at_first_load key w)).2.

(** The world in which the second [counter.Load()] reads. *)
Definition at_second_load (key : string) (inc : Z) (w : World) : World :=
  (yield (after_add key inc w)).2.

(** The world after a check that ran alone and applied its increment:
    the counter installed, then [counter.Add(inc)]. *)
Definition alone_after_add (key : string) (inc : Z) (w : World) : World :=
  (update_counters (store_add key inc) (counter_install key w).2).2.

(** Map assignments [m[k] = v] made in list order. *)
Definition insert_all (entries : list (string * Z)) (m : gmap string Z) : gmap string Z :=
  foldl (fun m kv => <[kv.1 := kv.2]> m) m entries.

(** The assignments of the bucket loop of the loader, in order: those of
    the buckets whose own flag is set. *)
Definition bucket_entries (Concat : list string -> string)
    (buckets : list (string * s3_pb.S3CircuitBreakerOptions)) : list (string * Z) :=
  flat_map (fun bo =>
              if s3_pb.Enabled bo.2
              then map (fun al => (Concat [bo.1; al.1], al.2)) (s3_pb.Actions bo.2)
              else []) buckets.

(** The keys that the bucket loop writes. *)
Definition bucket_keys (Concat : list string -> string)
    (buckets : list (string * s3_pb.S3CircuitBreakerOptions)) : list string :=
  map fst (bucket_entries Concat buckets).

(** The table after the global step of the loader. *)
Definition global_table (g : option s3_pb.S3CircuitBreakerOptions) : gmap string Z :=
  match g with
  | Some g =>
      if s3_pb.Enabled g && (0 <? Z.of_nat (length (s3_pb.Actions g)))
      then insert_all (s3_pb.Actions g) ∅
      else ∅
  | None => ∅
  end.

(** One check of the gate as section 4.3 of the specification lists it:
    scope (bucket name, or the empty name for global), metric kind,
    increment and error code. *)
Record Check : Type := {
  check_scope : string;
  check_metric : string;
  check_inc : Z;
  check_code : s3err.ErrorCode
}.

Module s3_config.
(** Modelled from the spec: package s3_config ([Concat],
    [LimitTypeCount], [LimitTypeBytes]) is not among the sources.  The
    specification says that a limit key is the composite of scope,
    action and metric kind, the kinds being "count" and "bytes".  The
    theorems hold for every choice of the three; this instance, which
    joins the elements with a separator as [strings.Join] does, serves
    the examples. *)
Definition Separator : string := ":".
Definition LimitTypeCount : string := "count".
Definition LimitTypeBytes : string := "bytes".
Definition Concat (elements : list string) : string :=
  String.concat Separator elements.
End s3_config.

(** ** Data of the examples *)

Module Sample.
(** A decoder for the examples, standing for
    [filer.ParseS3ConfigurationFromBytes]: it fails on empty content
    and decodes anything else to the empty configuration. *)
Definition decode (content : list Byte.byte)
    : s3_pb.S3CircuitBreakerConfig + string :=
  match content with
  | [] => inr "unexpected end of JSON input"%string
  | _ => inl {| s3_pb.Global := None; s3_pb.Buckets := [] |}
  end.

(** The breaker as [NewCircuitBreaker] allocates it. *)
Definition fresh : CircuitBreaker :=
  {| Enabled := false; counters := ∅; limitations := ∅ |}.

(** A request routed to [bucket] that declares [len] content bytes. *)
Definition request (bucket : string) (len : Z) : Request :=
  {| ContentLength := len; Vars := {[ "bucket"%string := bucket ]} |}.

(** A section with its flag set and the given entries. *)
Definition on (actions : list (string * Z)) : s3_pb.S3CircuitBreakerOptions :=
  {| s3_pb.Enabled := true; s3_pb.Actions := actions |}.

(** A section with its flag unset. *)
Definition off (actions : list (string * Z)) : s3_pb.S3CircuitBreakerOptions :=
  {| s3_pb.Enabled := false; s3_pb.Actions := actions |}.

(** Global section: at most 1 "Put" at a time.  No bucket section. *)
Definition global_only : s3_pb.S3CircuitBreakerConfig :=
  {| s3_pb.Global := Some (on [("Put:count"%string, 1)]); s3_pb.Buckets := [] |}.

(** The same entry in the section of bucket "b", under an enabled
    global section that limits another action. *)
Definition bucket_count (threshold : Z) : s3_pb.S3CircuitBreakerConfig :=
  {| s3_pb.Global := Some (on [("List:count"%string, 100)]);
     s3_pb.Buckets := [("b"%string, on [("Put:count"%string, threshold)])] |}.

(** Bucket "b": at most [threshold] bytes of "Put" in flight. *)
Definition bucket_bytes (threshold : Z) : s3_pb.S3CircuitBreakerConfig :=
  {| s3_pb.Global := Some (on [("List:count"%string, 100)]);
     s3_pb.Buckets := [("b"%string, on [("Put:bytes"%string, threshold)])] |}.

(** Global section disabled; bucket "b" enabled, bucket "c" not. *)
Definition buckets_only : s3_pb.S3CircuitBreakerConfig :=
  {| s3_pb.Global := Some (off [("Put:count"%string, 1)]);
     s3_pb.Buckets :=
       [("b"%string, on [("Put:count"%string, 5); ("Put:bytes"%string, 100)]);
        ("c"%string, off [("Put:count"%string, 1)])] |}.

(** A global section whose entry is named as the gate's global count
    check of "List" spells its key. *)
Definition global_literal (threshold : Z) : s3_pb.S3CircuitBreakerConfig :=
  {| s3_pb.Global := Some (on [(":List:count"%string, threshold)]);
     s3_pb.Buckets := [] |}.

(** A request on a route without bucket variable that declares [len]
    content bytes. *)
Definition request_without_bucket (len : Z) : Request :=
  {| ContentLength := len; Vars := ∅ |}.
End Sample.

Section Breaker.

(** Package s3_config and the decoder of package filer are outside this
    file: the development is parametric in them. *)
Variable Concat : list string -> string.
Variables LimitTypeCount LimitTypeBytes : string.
Variable ParseS3ConfigurationFromBytes :
  list Byte.byte -> s3_pb.S3CircuitBreakerConfig + string.

(** ** Configuration loader *)

(** Lines 58-83.  The local map [limitations] of the source is [table]
    here, the name being taken by the field. *)
Definition loadCircuitBreakerConfig (cfg : s3_pb.S3CircuitBreakerConfig)
    (cb : CircuitBreaker) : CircuitBreaker * option string :=
  (* global *)
  let globalOptions := s3_pb.Global cfg in
  let table : gmap string Z := ∅ in
  let '(globalEnabled, table) :=
    match globalOptions with
    | Some g =>
        if s3_pb.Enabled g && (0 <? Z.of_nat (length (s3_pb.Actions g)))
        then (s3_pb.Enabled g,
              foldl (fun m al => <[al.1 := al.2]> m) table (s3_pb.Actions g))
        else (false, table)
    | None => (false, table)
    end in
  (* buckets *)
  let table :=
    foldl (fun m bo =>
             if s3_pb.Enabled bo.2
             then foldl (fun m al => <[Concat [bo.1; al.1] := al.2]> m) m
                        (s3_pb.Actions bo.2)
             else m) table (s3_pb.Buckets cfg) in
  ({| Enabled := globalEnabled; counters := counters cb; limitations := table |},
   None).

(** Lines 46-56.  The result pairs the breaker after the call with the
    returned error ([None] for nil). *)
Definition LoadS3ApiConfigurationFromBytes (content : list Byte.byte)
    (cb : CircuitBreaker) : CircuitBreaker * option string :=
  match ParseS3ConfigurationFromBytes content with
  | inr err => (cb, Some ("unmarshal error: " ++ err)%string)
  | inl cbCfg =>
      match loadCircuitBreakerConfig cbCfg cb with
      | (cb', Some err) => (cb', Some err)
      | (cb', None) => (cb', None)
      end
  end.

(** Lines 25-44.  [read] is what reading the configuration file inside
    the filer gave: an error, or the content. *)
Definition NewCircuitBreaker (read : string + list Byte.byte) : CircuitBreaker :=
  let cb := {| Enabled := false; counters := ∅; limitations := ∅ |} in
  match read with
  | inl _ => cb
  | inr content => (LoadS3ApiConfigurationFromBytes content cb).1
  end.

(** ** Admission gate *)

(** Lines 150-181. *)
Definition loadCounterAndCompare (bucket action limitType : string) (inc : Z)
    (errCode : s3err.ErrorCode) : Run (option Release * s3err.ErrorCode) :=
  let key := Concat [bucket; action; limitType] in
  cb ← get_breaker;
  match limitations cb !! key with
  | Some max =>
      counter_install key ;;
      current ← counter_Load key;
      if max <? add64 current inc then mret (None, errCode)
      else
        counter_Add key inc ;;
        let f := Some {| rel_counter := key; rel_inc := inc |} in
        current ← counter_Load key;
        if max <? current then mret (f, errCode)
        else mret (f, s3err.ErrNone)
  | None => mret (None, s3err.ErrNone)
  end.

Definition append_rollback (rollback : list Release) (f : option Release) : list Release :=
  match f with
  | Some rf => rollback ++ [rf]
  | None => rollback
  end.

(** Lines 110-148. *)
Definition limit (r : Request) (bucket action : string)
    : Run (list Release * s3err.ErrorCode) :=
  let rollback : list Release := [] in
  (* bucket simultaneous request count *)
  '(bucketCountRollBack, errCode) ←
    loadCounterAndCompare bucket action LimitTypeCount 1 s3err.ErrTooManyRequest;
  let rollback := append_rollback rollback bucketCountRollBack in
  if negb (s3err.eqb errCode s3err.ErrNone) then mret (rollback, errCode) else
  (* bucket simultaneous request content bytes *)
  '(bucketContentLengthRollBack, errCode) ←
    loadCounterAndCompare bucket action LimitTypeBytes (ContentLength r)
      s3err.ErrRequestBytesExceed;
  let rollback := append_rollback rollback bucketContentLengthRollBack in
  if negb (s3err.eqb errCode s3err.ErrNone) then mret (rollback, errCode) else
  (* global simultaneous request count *)
  '(globalCountRollBack, errCode) ←
    loadCounterAndCompare "" action LimitTypeCount 1 s3err.ErrTooManyRequest;
  let rollback := append_rollback rollback globalCountRollBack in
  if negb (s3err.eqb errCode s3err.ErrNone) then mret (rollback, errCode) else
  (* global simultaneous request content bytes *)
  '(globalContentLengthRollBack, errCode) ←
    loadCounterAndCompare "" action LimitTypeBytes (ContentLength r)
      s3err.ErrRequestBytesExceed;
  let rollback := append_rollback rollback globalContentLengthRollBack in
  if negb (s3err.eqb errCode s3err.ErrNone) then mret (rollback, errCode) else
  mret (rollback, errCode).

(** The deferred loop of lines 96-100. *)
Fixpoint run_rollback (rollback : list Release) : Run unit :=
  match rollback with
  | [] => mret tt
  | rf :: rest => run_release rf ;; run_rollback rest
  end.

(** ** Middleware wrapper *)

(** Lines 85-108: the handler function that [Limit] returns, applied to
    a request.  [f] is the wrapped handler. *)
Definition Limit {R : Type} (f : Request -> R) (action : string)
    : (Request -> Run (Reply R)) * string :=
  (fun r =>
     cb ← get_breaker;
     if negb (Enabled cb) then mret (Served (f r))
     else
       let vars := Vars r in
       let bucket := default ""%string (vars !! "bucket"%string) in
       '(rollback, errCode) ← limit r bucket action;
       let reply :=
         if s3err.eqb errCode s3err.ErrNone then Served (f r)
         else Refused errCode in
       run_rollback rollback ;;
       mret reply,
   action).

(** Requests served one after the other by wrapped handlers; each is
    paired with the action of its route. *)
Fixpoint serve_all {R : Type} (f : Request -> R) (reqs : list (string * Request))
    : Run (list (Reply R)) :=
  match reqs with
  | [] => mret []
  | (action, r) :: rest =>
      reply ← (Limit f action).1 r;
      replies ← serve_all f rest;
      mret (reply :: replies)
  end.

(** ** The gate as the specification words it

    Section 4.3: four checks in a fixed order, evaluated one after the
    other, the release actions collected, stopping at the first
    rejection. *)
Definition four_checks (r : Request) (bucket : string) : list Check :=
  [ {| check_scope := bucket; check_metric := LimitTypeCount;
       check_inc := 1; check_code := s3err.ErrTooManyRequest |};
    {| check_scope := bucket; check_metric := LimitTypeBytes;
       check_inc := ContentLength r; check_code := s3err.ErrRequestBytesExceed |};
    {| check_scope := ""; check_metric := LimitTypeCount;
       check_inc := 1; check_code := s3err.ErrTooManyRequest |};
    {| check_scope := ""; check_metric := LimitTypeBytes;
       check_inc := ContentLength r; check_code := s3err.ErrRequestBytesExceed |} ].

Fixpoint evaluate_in_order (action : string) (checks : list Check)
    (rollback : list Release) : Run (list Release * s3err.ErrorCode) :=
  match checks with
  | [] => mret (rollback, s3err.ErrNone)
  | c :: rest =>
      '(release, code) ←
        loadCounterAndCompare (check_scope c) action (check_metric c)
          (check_inc c) (check_code c);
      let rollback := append_rollback rollback release in
      match code with
      | s3err.ErrNone => evaluate_in_order action rest rollback
      | _ => mret (rollback, code)
      end
  end.

(** The release actions of the checks whose key has a threshold in
    [table], in the order of the checks. *)
Definition registered_releases (table : gmap string Z) (action : string)
    (checks : list Check) : list Release :=
  flat_map (fun c =>
              let key := Concat [check_scope c; action; check_metric c] in
              match table !! key with
              | Some _ => [{| rel_counter := key; rel_inc := check_inc c |}]
              | None => []
              end) checks.

(** Requests for one bucket and action that pass through the gate one
    after the other and stay in flight: none is released. *)
Fixpoint enter_all (bucket action : string) (reqs : list Request)
    : Run (list s3err.ErrorCode) :=
  match reqs with
  | [] => mret []
  | r :: rest =>
      '(_, errCode) ← limit r bucket action;
      codes ← enter_all bucket action rest;
      mret (errCode :: codes)
  end.

(** ** 64-bit arithmetic *)

Lemma wrap64_int64 (z : Z) : int64 (wrap64 z).
Proof.
  unfold int64, wrap64.
  pose proof (Z.mod_pos_bound (z + 2 ^ 63) (2 ^ 64) ltac:(lia)). lia.
Qed.

Lemma wrap64_id (z : Z) : int64 z -> wrap64 z = z.
Proof.
  unfold int64, wrap64. intros Hz.
  rewrite Z.mod_small by lia. lia.
Qed.

Lemma eqm_iff (a b : Z) : eqm a b <-> exists q : Z, a = b + q * 2 ^ 64.
Proof.
  unfold eqm, wrap64. split.
  - intros Heq.
    pose proof (Z.mod_eq (a + 2 ^ 63) (2 ^ 64) ltac:(lia)) as Ha.
    pose proof (Z.mod_eq (b + 2 ^ 63) (2 ^ 64) ltac:(lia)) as Hb.
    exists ((a + 2 ^ 63) / 2 ^ 64 - (b + 2 ^ 63) / 2 ^ 64). lia.
  - intros [q ->].
    replace (b + q * 2 ^ 64 + 2 ^ 63) with (b + 2 ^ 63 + q * 2 ^ 64) by lia.
    now rewrite Z_mod_plus_full.
Qed.

Lemma eqm_refl (a : Z) : eqm a a.
Proof. reflexivity. Qed.

Lemma eqm_sym (a b : Z) : eqm a b -> eqm b a.
Proof. unfold eqm. congruence. Qed.

Lemma eqm_trans (a b c : Z) : eqm a b -> eqm b c -> eqm a c.
Proof. unfold eqm. congruence. Qed.

Lemma eqm_wrap (a : Z) : eqm (wrap64 a) a.
Proof. unfold eqm. apply wrap64_id, wrap64_int64. Qed.

Lemma eqm_add (a a' b b' : Z) : eqm a a' -> eqm b b' -> eqm (a + b) (a' + b').
Proof.
  rewrite !eqm_iff. intros [q ->] [q' ->]. exists (q + q'). lia.
Qed.

Lemma eqm_int64 (a b : Z) : int64 a -> int64 b -> eqm a b -> a = b.
Proof.
  unfold eqm. intros Ha Hb. now rewrite !wrap64_id.
Qed.

Lemma add64_exact (a b : Z) : int64 (a + b) -> add64 a b = a + b.
Proof. apply wrap64_id. Qed.

Lemma sub64_add64 (a b : Z) : int64 a -> sub64 (add64 a b) b = a.
Proof.
  intros Ha. apply eqm_int64; [apply wrap64_int64 | exact Ha |].
  unfold sub64, add64. eapply eqm_trans; [apply eqm_wrap |].
  replace a with (a + b + - b) at 2 by lia.
  apply eqm_add; [apply eqm_wrap | apply eqm_refl].
Qed.

(** ** The counter store *)

Lemma counter_value_int64 (key : string) (cs : gmap string Z) :
  counters_ok cs -> int64 (counter_value key cs).
Proof.
  intros Hok. unfold counter_value.
  destruct (cs !! key) as [v|] eqn:Hv; simpl.
  - exact (Hok key v Hv).
  - unfold int64. lia.
Qed.

Lemma counter_value_store_add (key k : string) (d : Z) (cs : gmap string Z) :
  counter_value k (store_add key d cs) =
  if decide (k = key) then add64 (counter_value key cs) d else counter_value k cs.
Proof.
  unfold store_add, counter_value at 1.
  destruct (decide (k = key)) as [->|Hne].
  - now rewrite lookup_insert_eq.
  - now rewrite lookup_insert_ne by congruence.
Qed.

Lemma counter_value_store_sub (key k : string) (d : Z) (cs : gmap string Z) :
  counter_value k (store_sub key d cs) =
  if decide (k = key) then sub64 (counter_value key cs) d else counter_value k cs.
Proof.
  unfold store_sub, counter_value at 1.
  destruct (decide (k = key)) as [->|Hne].
  - now rewrite lookup_insert_eq.
  - now rewrite lookup_insert_ne by congruence.
Qed.

Lemma counters_ok_insert (key : string) (v : Z) (cs : gmap string Z) :
  int64 v -> counters_ok cs -> counters_ok (<[key := v]> cs).
Proof. intros Hv Hok. now apply map_Forall_insert_2. Qed.

Lemma counters_ok_store_add (key : string) (d : Z) (cs : gmap string Z) :
  counters_ok cs -> counters_ok (store_add key d cs).
Proof. intros Hok. apply counters_ok_insert; [apply wrap64_int64 | exact Hok]. Qed.

Lemma counters_ok_others_run (batch : list (string * Z)) (cs : gmap string Z) :
  counters_ok cs -> counters_ok (others_run batch cs).
Proof.
  revert cs. induction batch as [|[k d] rest IH]; intros cs Hok; [exact Hok |].
  apply IH, counters_ok_store_add, Hok.
Qed.

Lemma counters_grow_refl (cs : gmap string Z) : counters_grow cs cs.
Proof. split; tauto. Qed.

Lemma counters_grow_trans (cs1 cs2 cs3 : gmap string Z) :
  counters_grow cs1 cs2 -> counters_grow cs2 cs3 -> counters_grow cs1 cs3.
Proof. intros [Hok1 Hd1] [Hok2 Hd2]. split; auto. Qed.

Lemma counters_grow_insert (key : string) (v : Z) (cs : gmap string Z) :
  int64 v -> counters_grow cs (<[key := v]> cs).
Proof.
  intros Hv. split; [now apply counters_ok_insert |].
  intros k Hk. destruct (decide (key = k)) as [->|Hne].
  - rewrite lookup_insert_eq. eauto.
  - now rewrite lookup_insert_ne.
Qed.

Lemma counters_grow_store_add (key : string) (d : Z) (cs : gmap string Z) :
  counters_grow cs (store_add key d cs).
Proof. apply counters_grow_insert, wrap64_int64. Qed.

Lemma counters_grow_store_sub (key : string) (d : Z) (cs : gmap string Z) :
  counters_grow cs (store_sub key d cs).
Proof. apply counters_grow_insert, wrap64_int64. Qed.

Lemma counters_grow_others_run (batch : list (string * Z)) (cs : gmap string Z) :
  counters_grow cs (others_run batch cs).
Proof.
  revert cs. induction batch as [|[k d] rest IH]; intros cs.
  - apply counters_grow_refl.
  - eapply counters_grow_trans; [apply (counters_grow_store_add k d) | apply IH].
Qed.

Lemma batch_sum_app (key : string) (a b : list (string * Z)) :
  batch_sum key (a ++ b) = batch_sum key a + batch_sum key b.
Proof.
  induction a as [|[k d] rest IH]; simpl; [reflexivity | rewrite IH; lia].
Qed.

Lemma others_run_value (key : string) (batch : list (string * Z)) (cs : gmap string Z) :
  eqm (counter_value key (others_run batch cs))
      (counter_value key cs + batch_sum key batch).
Proof.
  revert cs. induction batch as [|[k d] rest IH]; intros cs.
  - simpl. replace (counter_value key cs + 0) with (counter_value key cs) by lia.
    apply eqm_refl.
  - change (others_run ((k, d) :: rest) cs) with (others_run rest (store_add k d cs)).
    eapply eqm_trans; [apply IH |].
    rewrite counter_value_store_add. simpl.
    destruct (decide (key = k)) as [->|Hne].
    + rewrite decide_True by reflexivity.
      replace (counter_value k cs + (d + batch_sum k rest))
        with (counter_value k cs + d + batch_sum k rest) by lia.
      apply eqm_add; [apply eqm_wrap | apply eqm_refl].
    + rewrite decide_False by congruence.
      replace (counter_value key cs + (0 + batch_sum key rest))
        with (counter_value key cs + batch_sum key rest) by lia.
      apply eqm_refl.
Qed.

(** ** Effects of the primitive steps *)


Lemma effect_ext (w w' : World) (own own' : string -> Z) :
  (forall k, own k = own' k) -> effect w w' own -> effect w w' own'.
Proof.
  intros Hext (He & Hl & Hok & done & Hd & Hv).
  effect_parts; try assumption.
  exists done. split; [exact Hd |]. intros key. rewrite <- Hext. apply Hv.
Qed.

Lemma effect_refl (w : World) : effect w w (fun _ => 0).
Proof.
  effect_parts; try tauto; [apply counters_grow_refl |].
  exists []. split; [reflexivity |]. intros key. simpl.
  replace (counter_value key (counters (breaker w)) + 0 + 0)
    with (counter_value key (counters (breaker w))) by lia.
  apply eqm_refl.
Qed.

Lemma effect_trans (w w1 w2 : World) (own1 own2 : string -> Z) :
  effect w w1 own1 -> effect w1 w2 own2 ->
  effect w w2 (fun k => own1 k + own2 k).
Proof.
  intros (He1 & Hl1 & Hok1 & d1 & Hd1 & Hv1) (He2 & Hl2 & Hok2 & d2 & Hd2 & Hv2).
  effect_parts; try congruence; [eapply counters_grow_trans; eassumption |].
  exists (d1 ++ d2). split.
  - rewrite Hd1, Hd2. now rewrite app_assoc.
  - intros key. rewrite concat_app, batch_sum_app.
    eapply eqm_trans; [apply Hv2 |].
    replace (counter_value key (counters (breaker w)) +
             (batch_sum key (concat d1) + batch_sum key (concat d2)) +
             (own1 key + own2 key))
      with ((counter_value key (counters (breaker w)) + batch_sum key (concat d1)
             + own1 key) + (batch_sum key (concat d2) + own2 key)) by lia.
    replace (counter_value key (counters (breaker w1)) + batch_sum key (concat d2)
             + own2 key)
      with (counter_value key (counters (breaker w1))
            + (batch_sum key (concat d2) + own2 key)) by lia.
    apply eqm_add; [apply Hv1 | apply eqm_refl].
Qed.

Lemma effect_yield (w : World) : effect w (yield w).2 (fun _ => 0).
Proof.
  unfold yield. destruct (others w) as [|batch rest] eqn:Hw.
  - apply effect_refl.
  - simpl. effect_parts; simpl; try reflexivity.
    + apply counters_grow_others_run.
    + exists [batch]. split; [exact Hw |]. intros key. simpl.
      rewrite app_nil_r.
      replace (counter_value key (counters (breaker w)) + batch_sum key batch + 0)
        with (counter_value key (counters (breaker w)) + batch_sum key batch) by lia.
      apply others_run_value.
Qed.

Lemma effect_store_add (key : string) (d : Z) (w : World) :
  effect w (update_counters (store_add key d) w).2 (own_of key d).
Proof.
  effect_parts; simpl; try reflexivity.
  - apply counters_grow_store_add.
  - exists []. split; [reflexivity |]. intros k. simpl.
    rewrite counter_value_store_add. unfold own_of.
    destruct (decide (k = key)) as [->|Hne].
    + replace (counter_value key (counters (breaker w)) + 0 + d)
        with (counter_value key (counters (breaker w)) + d) by lia.
      apply eqm_wrap.
    + replace (counter_value k (counters (breaker w)) + 0 + 0)
        with (counter_value k (counters (breaker w))) by lia.
      apply eqm_refl.
Qed.

Lemma effect_store_sub (key : string) (d : Z) (w : World) :
  effect w (update_counters (store_sub key d) w).2 (own_of key (- d)).
Proof.
  effect_parts; simpl; try reflexivity.
  - apply counters_grow_store_sub.
  - exists []. split; [reflexivity |]. intros k. simpl.
    rewrite counter_value_store_sub. unfold own_of.
    destruct (decide (k = key)) as [->|Hne].
    + replace (counter_value key (counters (breaker w)) + 0 + - d)
        with (counter_value key (counters (breaker w)) - d) by lia.
      apply eqm_wrap.
    + replace (counter_value k (counters (breaker w)) + 0 + 0)
        with (counter_value k (counters (breaker w))) by lia.
      apply eqm_refl.
Qed.

Lemma counter_value_install (key k : string) (w : World) :
  counter_value k (counters (breaker (counter_install key w).2)) =
  counter_value k (counters (breaker w)).
Proof.
  unfold counter_install, update_counters. simpl.
  destruct (counters (breaker w) !! key) as [v|] eqn:Hv; [reflexivity |].
  unfold counter_value. destruct (decide (k = key)) as [->|Hne].
  - now rewrite lookup_insert_eq, Hv.
  - now rewrite lookup_insert_ne by congruence.
Qed.

Lemma effect_install (key : string) (w : World) :
  effect w (counter_install key w).2 (fun _ => 0).
Proof.
  effect_parts; try reflexivity.
  - unfold counter_install, update_counters. simpl.
    destruct (counters (breaker w) !! key); [apply counters_grow_refl |].
    apply counters_grow_insert. unfold int64. lia.
  - exists []. split; [reflexivity |]. intros k.
    rewrite counter_value_install. simpl.
    replace (counter_value k (counters (breaker w)) + 0 + 0)
      with (counter_value k (counters (breaker w))) by lia.
    apply eqm_refl.
Qed.

(** ** Running a goroutine *)

Lemma run_bind_eq {A B : Type} (m : Run A) (k : A -> Run B) (w : World) :
  (m ≫= k) w = k (m w).1 (m w).2.
Proof. unfold mbind, run_bind. now destruct (m w). Qed.

Lemma counter_Load_eq (key : string) (w : World) :
  counter_Load key w =
  (counter_value key (counters (breaker (yield w).2)), (yield w).2).
Proof. unfold counter_Load. now rewrite run_bind_eq. Qed.

Lemma counter_Add_eq (key : string) (d : Z) (w : World) :
  counter_Add key d w = (tt, (update_counters (store_add key d) (yield w).2).2).
Proof. unfold counter_Add. now rewrite run_bind_eq. Qed.

Lemma counter_Sub_eq (key : string) (d : Z) (w : World) :
  counter_Sub key d w = (tt, (update_counters (store_sub key d) (yield w).2).2).
Proof. unfold counter_Sub. now rewrite run_bind_eq. Qed.

Lemma effect_counter_Add (key : string) (d : Z) (w : World) :
  effect w (counter_Add key d w).2 (own_of key d).
Proof.
  rewrite counter_Add_eq. simpl.
  eapply effect_ext; [| eapply effect_trans; [apply effect_yield | apply effect_store_add]].
  intros k. simpl. lia.
Qed.

Lemma effect_counter_Sub (key : string) (d : Z) (w : World) :
  effect w (counter_Sub key d w).2 (own_of key (- d)).
Proof.
  rewrite counter_Sub_eq. simpl.
  eapply effect_ext; [| eapply effect_trans; [apply effect_yield | apply effect_store_sub]].
  intros k. simpl. lia.
Qed.

Lemma loadCounterAndCompare_unlimited (bucket action limitType : string) (inc : Z)
    (errCode : s3err.ErrorCode) (w : World) :
  limitations (breaker w) !! Concat [bucket; action; limitType] = None ->
  loadCounterAndCompare bucket action limitType inc errCode w =
  ((None, s3err.ErrNone), w).
Proof.
  intros Hnone. unfold loadCounterAndCompare.
  rewrite run_bind_eq. simpl. now rewrite Hnone.
Qed.

Lemma loadCounterAndCompare_limited (bucket action limitType : string) (inc : Z)
    (errCode : s3err.ErrorCode) (w : World) (max : Z) :
  let key := Concat [bucket; action; limitType] in
  limitations (breaker w) !! key = Some max ->
  loadCounterAndCompare bucket action limitType inc errCode w =
  if max <? add64 (counter_value key (counters (breaker (at_first_load key w)))) inc
  then ((None, errCode), at_first_load key w)
  else ((Some {| rel_counter := key; rel_inc := inc |},
         if max <? counter_value key (counters (breaker (at_second_load key inc w)))
         then errCode else s3err.ErrNone),
        at_second_load key inc w).
Proof.
  intros key Hmax. unfold loadCounterAndCompare. fold key.
  rewrite run_bind_eq. simpl. rewrite Hmax.
  rewrite run_bind_eq, run_bind_eq, counter_Load_eq. simpl.
  fold (at_first_load key w).
  destruct (max <? add64 _ inc); [reflexivity |].
  rewrite run_bind_eq, run_bind_eq, counter_Load_eq. simpl.
  fold (after_add key inc w). fold (at_second_load key inc w).
  now destruct (max <? _).
Qed.

(** ** Effects of the gate *)

Lemma held_app (a b : list Release) (k : string) :
  held (a ++ b) k = held a k + held b k.
Proof. induction a as [|rf rest IH]; simpl; [reflexivity | rewrite IH; lia]. Qed.

Lemma held_append_rollback (rollback : list Release) (f : option Release) (k : string) :
  held (append_rollback rollback f) k = held rollback k + held (append_rollback [] f) k.
Proof.
  destruct f as [rf|]; simpl; [apply held_app | lia].
Qed.

Lemma effect_at_first_load (key : string) (w : World) :
  effect w (at_first_load key w) (fun _ => 0).
Proof.
  unfold at_first_load.
  eapply effect_ext; [| eapply effect_trans; [apply effect_install | apply effect_yield]].
  intros k. simpl. lia.
Qed.

Lemma effect_at_second_load (key : string) (inc : Z) (w : World) :
  effect w (at_second_load key inc w) (own_of key inc).
Proof.
  unfold at_second_load, after_add.
  eapply effect_ext;
    [| eapply effect_trans;
       [apply effect_at_first_load
       | eapply effect_trans; [apply effect_counter_Add | apply effect_yield]]].
  intros k. simpl. lia.
Qed.

Lemma effect_loadCounterAndCompare (bucket action limitType : string) (inc : Z)
    (errCode : s3err.ErrorCode) (w : World) :
  effect w (loadCounterAndCompare bucket action limitType inc errCode w).2
    (held (append_rollback []
             (loadCounterAndCompare bucket action limitType inc errCode w).1.1)).
Proof.
  destruct (limitations (breaker w) !! Concat [bucket; action; limitType])
    as [max|] eqn:Hmax.
  - rewrite (loadCounterAndCompare_limited _ _ _ _ _ _ _ Hmax).
    destruct (max <? add64 _ inc); simpl.
    + apply effect_at_first_load.
    + eapply effect_ext; [| apply effect_at_second_load].
      intros k. simpl. lia.
  - rewrite (loadCounterAndCompare_unlimited _ _ _ _ _ _ Hmax). simpl.
    apply effect_refl.
Qed.

Lemma loadCounterAndCompare_code (bucket action limitType : string) (inc : Z)
    (errCode : s3err.ErrorCode) (w : World) :
  (loadCounterAndCompare bucket action limitType inc errCode w).1.2 = s3err.ErrNone \/
  (loadCounterAndCompare bucket action limitType inc errCode w).1.2 = errCode.
Proof.
  destruct (limitations (breaker w) !! Concat [bucket; action; limitType])
    as [max|] eqn:Hmax.
  - rewrite (loadCounterAndCompare_limited _ _ _ _ _ _ _ Hmax).
    destruct (max <? add64 _ inc); simpl; [now right |].
    destruct (max <? _); [now right | now left].
  - rewrite (loadCounterAndCompare_unlimited _ _ _ _ _ _ Hmax). now left.
Qed.

Lemma limit_as_evaluation (r : Request) (bucket action : string) (w : World) :
  limit r bucket action w = evaluate_in_order action (four_checks r bucket) [] w.
Proof.
  unfold limit, four_checks, evaluate_in_order.
  cbn [check_scope check_metric check_inc check_code].
  rewrite !(run_bind_eq (loadCounterAndCompare bucket action LimitTypeCount 1 _)).
  destruct (loadCounterAndCompare bucket action LimitTypeCount 1 _ w)
    as [[f1 e1] w1]; cbn [fst snd].
  destruct e1; cbn [s3err.eqb negb]; try reflexivity.
  rewrite !(run_bind_eq (loadCounterAndCompare bucket action LimitTypeBytes _ _)).
  destruct (loadCounterAndCompare bucket action LimitTypeBytes _ _ w1)
    as [[f2 e2] w2]; cbn [fst snd].
  destruct e2; cbn [s3err.eqb negb]; try reflexivity.
  rewrite !(run_bind_eq (loadCounterAndCompare "" action LimitTypeCount 1 _)).
  destruct (loadCounterAndCompare "" action LimitTypeCount 1 _ w2)
    as [[f3 e3] w3]; cbn [fst snd].
  destruct e3; cbn [s3err.eqb negb]; try reflexivity.
  rewrite !(run_bind_eq (loadCounterAndCompare "" action LimitTypeBytes _ _)).
  destruct (loadCounterAndCompare "" action LimitTypeBytes _ _ w3)
    as [[f4 e4] w4]; cbn [fst snd].
  destruct e4; reflexivity.
Qed.

Lemma effect_evaluate_in_order (action : string) (checks : list Check)
    (rollback : list Release) (w : World) :
  effect w (evaluate_in_order action checks rollback w).2
    (fun k => held (evaluate_in_order action checks rollback w).1.1 k - held rollback k).
Proof.
  revert rollback w. induction checks as [|c rest IH]; intros rollback w.
  - simpl. eapply effect_ext; [| apply effect_refl]. intros k. simpl. lia.
  - cbn [evaluate_in_order]. rewrite run_bind_eq.
    pose proof (effect_loadCounterAndCompare (check_scope c) action (check_metric c)
                  (check_inc c) (check_code c) w) as Hc.
    destruct (loadCounterAndCompare _ _ _ _ _ w) as [[f e] w1]; cbn [fst snd] in *.
    destruct e.
    + eapply effect_ext; [| eapply effect_trans; [exact Hc | apply IH]].
      intros k. simpl. rewrite (held_append_rollback rollback f k). lia.
    + simpl. eapply effect_ext; [| exact Hc].
      intros k. simpl. rewrite (held_append_rollback rollback f k). lia.
    + simpl. eapply effect_ext; [| exact Hc].
      intros k. simpl. rewrite (held_append_rollback rollback f k). lia.
Qed.

Lemma effect_limit (r : Request) (bucket action : string) (w : World) :
  effect w (limit r bucket action w).2 (held (limit r bucket action w).1.1).
Proof.
  rewrite limit_as_evaluation.
  eapply effect_ext; [| apply effect_evaluate_in_order].
  intros k. simpl. lia.
Qed.

Lemma effect_run_rollback (rollback : list Release) (w : World) :
  effect w (run_rollback rollback w).2 (fun k => - held rollback k).
Proof.
  revert w. induction rollback as [|rf rest IH]; intros w.
  - simpl. apply effect_refl.
  - cbn [run_rollback]. rewrite run_bind_eq. unfold run_release.
    eapply effect_ext; [| eapply effect_trans; [apply effect_counter_Sub | apply IH]].
    intros k. simpl. unfold own_of. destruct (decide _); lia.
Qed.

Lemma Limit_eq {R : Type} (f : Request -> R) (action : string) (r : Request) (w : World) :
  (Limit f action).1 r w =
  if Enabled (breaker w) then
    let bucket := default ""%string (Vars r !! "bucket"%string) in
    let res := limit r bucket action w in
    (if s3err.eqb res.1.2 s3err.ErrNone then Served (f r) else Refused res.1.2,
     (run_rollback res.1.1 res.2).2)
  else (Served (f r), w).
Proof.
  unfold Limit. cbn [fst]. rewrite run_bind_eq. cbn [get_breaker fst snd].
  destruct (Enabled (breaker w)); cbn [negb]; [| reflexivity].
  rewrite run_bind_eq.
  destruct (limit r _ action w) as [[rollback errCode] w1]; cbn [fst snd].
  now rewrite run_bind_eq.
Qed.

Lemma effect_Limit {R : Type} (f : Request -> R) (action : string) (r : Request)
    (w : World) :
  effect w ((Limit f action).1 r w).2 (fun _ => 0).
Proof.
  rewrite Limit_eq. destruct (Enabled (breaker w)); cbn [snd]; [| apply effect_refl].
  eapply effect_ext;
    [| eapply effect_trans; [apply effect_limit | apply effect_run_rollback]].
  intros k. simpl. lia.
Qed.

Lemma effect_serve_all {R : Type} (f : Request -> R) (reqs : list (string * Request))
    (w : World) :
  effect w (serve_all f reqs w).2 (fun _ => 0).
Proof.
  revert w. induction reqs as [|[action r] rest IH]; intros w.
  - apply effect_refl.
  - cbn [serve_all]. rewrite run_bind_eq, run_bind_eq.
    unfold mret, run_ret. cbn [snd].
    eapply effect_ext;
      [| eapply effect_trans; [apply (effect_Limit f action r) | apply IH]].
    intros k. simpl. lia.
Qed.

(** A goroutine that holds nothing any more leaves in the counters what
    the others did, and nothing else. *)
Lemma effect_nothing_held (w w' : World) :
  effect w w' (fun _ => 0) ->
  counters_ok (counters (breaker w)) ->
  exists done : list (list (string * Z)),
    others w = done ++ others w' /\
    forall key : string,
      counter_value key (counters (breaker w')) =
      counter_value key (others_run (concat done) (counters (breaker w))).
Proof.
  intros (_ & _ & [Hok' _] & done & Hd & Hv) Hok.
  exists done. split; [exact Hd |]. intros key.
  apply eqm_int64.
  - apply counter_value_int64, Hok', Hok.
  - apply counter_value_int64, counters_ok_others_run, Hok.
  - eapply eqm_trans; [apply Hv |]. apply eqm_sym.
    eapply eqm_trans; [apply others_run_value |].
    replace (counter_value key (counters (breaker w)) + batch_sum key (concat done) + 0)
      with (counter_value key (counters (breaker w)) + batch_sum key (concat done))
      by lia.
    apply eqm_refl.
Qed.

(** ** The loader *)

Lemma insert_all_app (a b : list (string * Z)) (m : gmap string Z) :
  insert_all (a ++ b) m = insert_all b (insert_all a m).
Proof. apply foldl_app. Qed.

Lemma lookup_insert_all_other (entries : list (string * Z)) (m : gmap string Z)
    (k : string) :
  ~ In k (map fst entries) -> insert_all entries m !! k = m !! k.
Proof.
  revert m. induction entries as [|[k0 v0] rest IH]; intros m Hk; [reflexivity |].
  change (insert_all ((k0, v0) :: rest) m) with (insert_all rest (<[k0 := v0]> m)).
  simpl in Hk. rewrite IH by tauto.
  apply lookup_insert_ne. intros ->. tauto.
Qed.

Lemma lookup_insert_all_elem (entries : list (string * Z)) (m : gmap string Z)
    (k : string) (v : Z) :
  List.NoDup (map fst entries) -> In (k, v) entries ->
  insert_all entries m !! k = Some v.
Proof.
  revert m. induction entries as [|[k0 v0] rest IH]; intros m Hnd Hin; [destruct Hin |].
  change (insert_all ((k0, v0) :: rest) m) with (insert_all rest (<[k0 := v0]> m)).
  simpl in Hnd. inversion Hnd as [|? ? Hnotin Hnd']; subst.
  destruct Hin as [Heq|Hin].
  - inversion Heq; subst. rewrite lookup_insert_all_other by exact Hnotin.
    apply lookup_insert_eq.
  - apply IH; assumption.
Qed.

Lemma lookup_insert_all_is_Some (entries : list (string * Z)) (m : gmap string Z)
    (k : string) :
  In k (map fst entries) -> is_Some (insert_all entries m !! k).
Proof.
  revert m. induction entries as [|[k0 v0] rest IH]; intros m Hin; [destruct Hin |].
  change (insert_all ((k0, v0) :: rest) m) with (insert_all rest (<[k0 := v0]> m)).
  destruct (in_dec string_dec k (map fst rest)) as [Hk|Hk]; [now apply IH |].
  destruct Hin as [Heq|Hin]; [| contradiction].
  simpl in Heq. subst k0.
  rewrite lookup_insert_all_other by exact Hk. rewrite lookup_insert_eq. eauto.
Qed.

Lemma lookup_insert_all_inv (entries : list (string * Z)) (m : gmap string Z)
    (k : string) (v : Z) :
  insert_all entries m !! k = Some v -> In (k, v) entries \/ m !! k = Some v.
Proof.
  revert m. induction entries as [|[k0 v0] rest IH]; intros m Hl; [now right |].
  change (insert_all ((k0, v0) :: rest) m) with (insert_all rest (<[k0 := v0]> m)) in Hl.
  destruct (IH _ Hl) as [Hin|Hm]; [left; now right |].
  destruct (decide (k0 = k)) as [->|Hne].
  - rewrite lookup_insert_eq in Hm. inversion Hm; subst. left. now left.
  - rewrite lookup_insert_ne in Hm by exact Hne. now right.
Qed.

Lemma insert_all_union (entries : list (string * Z)) (m : gmap string Z) :
  insert_all entries m = insert_all entries ∅ ∪ m.
Proof.
  revert m. induction entries as [|[k0 v0] rest IH]; intros m.
  - simpl. now rewrite (left_id_L ∅ (∪)).
  - change (insert_all ((k0, v0) :: rest) m) with (insert_all rest (<[k0 := v0]> m)).
    change (insert_all ((k0, v0) :: rest) ∅) with (insert_all rest (<[k0 := v0]> ∅)).
    rewrite (IH (<[k0 := v0]> m)), (IH (<[k0 := v0]> ∅)).
    rewrite <- (assoc_L (∪)). f_equal.
    rewrite <- insert_union_l. now rewrite (left_id_L ∅ (∪)).
Qed.

Lemma bucket_loop_eq (buckets : list (string * s3_pb.S3CircuitBreakerOptions))
    (m : gmap string Z) :
  foldl (fun m bo =>
           if s3_pb.Enabled bo.2
           then foldl (fun m al => <[Concat [bo.1; al.1] := al.2]> m) m
                      (s3_pb.Actions bo.2)
           else m) m buckets
  = insert_all (bucket_entries Concat buckets) m.
Proof.
  revert m. induction buckets as [|[b o] rest IH]; intros m; [reflexivity |].
  cbn [foldl bucket_entries flat_map]. rewrite IH, insert_all_app. f_equal.
  cbn [fst snd]. destruct (s3_pb.Enabled o); [| reflexivity].
  generalize (s3_pb.Actions o). intros actions. revert m.
  induction actions as [|[a v] more IHa]; intros m; [reflexivity |].
  cbn [foldl map]. now rewrite IHa.
Qed.

Lemma loadCircuitBreakerConfig_eq (cfg : s3_pb.S3CircuitBreakerConfig)
    (cb : CircuitBreaker) :
  loadCircuitBreakerConfig cfg cb =
  ({| Enabled := match s3_pb.Global cfg with
                 | Some g => s3_pb.Enabled g && (0 <? Z.of_nat (length (s3_pb.Actions g)))
                 | None => false
                 end;
      counters := counters cb;
      limitations := insert_all (bucket_entries Concat (s3_pb.Buckets cfg))
                       (global_table (s3_pb.Global cfg)) |}, None).
Proof.
  unfold loadCircuitBreakerConfig, global_table.
  destruct (s3_pb.Global cfg) as [g|].
  - destruct (s3_pb.Enabled g) eqn:Hg; cbn [andb].
    + destruct (0 <? Z.of_nat (length (s3_pb.Actions g)));
        now rewrite bucket_loop_eq.
    + now rewrite bucket_loop_eq.
  - now rewrite bucket_loop_eq.
Qed.

Lemma bucket_entries_app (a b : list (string * s3_pb.S3CircuitBreakerOptions)) :
  bucket_entries Concat (a ++ b) = bucket_entries Concat a ++ bucket_entries Concat b.
Proof. unfold bucket_entries. now rewrite flat_map_app. Qed.

Lemma bucket_entries_elem (buckets : list (string * s3_pb.S3CircuitBreakerOptions))
    (bucket : string) (options : s3_pb.S3CircuitBreakerOptions)
    (action : string) (threshold : Z) :
  In (bucket, options) buckets -> s3_pb.Enabled options = true ->
  In (action, threshold) (s3_pb.Actions options) ->
  In (Concat [bucket; action], threshold) (bucket_entries Concat buckets).
Proof.
  intros Hb Hen Ha. unfold bucket_entries. apply in_flat_map.
  exists (bucket, options). split; [exact Hb |]. cbn [fst snd]. rewrite Hen.
  apply in_map_iff. exists (action, threshold). now split.
Qed.

(** ** Properties of the loader *)

(** C9.  A load succeeds, and after it the flag [Enabled] is true if and
    only if the global section is present, its own flag is set and its
    action map has at least one entry; a global section that is enabled
    but has no action leaves the gate disabled, whatever the buckets. *)
Theorem C9_enabled_iff_global_enabled_with_actions
    (cfg : s3_pb.S3CircuitBreakerConfig) (cb : CircuitBreaker) :
  (loadCircuitBreakerConfig cfg cb).2 = None /\
  (Enabled (loadCircuitBreakerConfig cfg cb).1 = true <->
   exists g, s3_pb.Global cfg = Some g /\ s3_pb.Enabled g = true /\
             s3_pb.Actions g <> []) /\
  (forall buckets,
     Enabled (loadCircuitBreakerConfig
                {| s3_pb.Global := Some {| s3_pb.Enabled := true; s3_pb.Actions := [] |};
                   s3_pb.Buckets := buckets |} cb).1 = false).
Proof.
  split; [now rewrite loadCircuitBreakerConfig_eq |]. split.
  - rewrite loadCircuitBreakerConfig_eq. cbn [fst Enabled].
    destruct (s3_pb.Global cfg) as [g|]; split.
    + intros [Hen Hlen]%andb_true_iff. exists g. repeat split; [exact Hen |].
      intros Hnil. rewrite Hnil in Hlen. discriminate.
    + intros (g' & [= <-] & Hen & Hne). rewrite Hen. cbn [andb].
      destruct (s3_pb.Actions g); [congruence | reflexivity].
    + discriminate.
    + intros (g & Hg & _). discriminate.
  - intros buckets. now rewrite loadCircuitBreakerConfig_eq.
Qed.

(** C7.  A reload replaces the limit table and the flag, which after it
    depend on the configuration alone, and leaves the counter store as it
    was: the map of counters after the load is the map before it, so no
    counter is removed, reset or changed.  The same holds of a load from
    bytes, whether the decoding succeeds or not. *)
Theorem C7_reload_keeps_counter_store
    (cfg : s3_pb.S3CircuitBreakerConfig) (cb : CircuitBreaker) :
  (loadCircuitBreakerConfig cfg cb).2 = None /\
  counters (loadCircuitBreakerConfig cfg cb).1 = counters cb /\
  (forall cb',
     Enabled (loadCircuitBreakerConfig cfg cb).1
     = Enabled (loadCircuitBreakerConfig cfg cb').1 /\
     limitations (loadCircuitBreakerConfig cfg cb).1
     = limitations (loadCircuitBreakerConfig cfg cb').1) /\
  (forall content,
     counters (LoadS3ApiConfigurationFromBytes content cb).1 = counters cb).
Proof.
  split; [now rewrite loadCircuitBreakerConfig_eq |].
  split; [now rewrite loadCircuitBreakerConfig_eq |].
  split; [intros cb'; now rewrite !loadCircuitBreakerConfig_eq |].
  intros content. unfold LoadS3ApiConfigurationFromBytes.
  destruct (ParseS3ConfigurationFromBytes content) as [cbCfg|err]; [| reflexivity].
  now rewrite loadCircuitBreakerConfig_eq.
Qed.

(** C8.  The entries of a bucket of the buckets section are in the new
    limit table, under the keys [Concat [bucket; action]], exactly when
    the bucket's own flag is set, whatever the global section is.  With
    the flag set, the key of each entry of the bucket is registered, and
    it holds the threshold of that entry when the keys written by the
    bucket loop are distinct; with the flag unset, the table is the one
    of the configuration without that bucket.  In both cases the bucket
    part of the table is the same for every global section, enabled or
    not, absent or empty, which only supplies the entries below it. *)
Theorem C8_bucket_entries_follow_bucket_flag
    (cfg : s3_pb.S3CircuitBreakerConfig) (cb : CircuitBreaker)
    (pre post : list (string * s3_pb.S3CircuitBreakerOptions))
    (bucket : string) (options : s3_pb.S3CircuitBreakerOptions) :
  s3_pb.Buckets cfg = pre ++ (bucket, options) :: post ->
  (s3_pb.Enabled options = true ->
   forall action threshold,
     In (action, threshold) (s3_pb.Actions options) ->
     is_Some (limitations (loadCircuitBreakerConfig cfg cb).1
                !! Concat [bucket; action]) /\
     (List.NoDup (bucket_keys Concat (s3_pb.Buckets cfg)) ->
      limitations (loadCircuitBreakerConfig cfg cb).1 !! Concat [bucket; action]
      = Some threshold)) /\
  (s3_pb.Enabled options = false ->
   limitations (loadCircuitBreakerConfig cfg cb).1 =
   limitations (loadCircuitBreakerConfig
                  {| s3_pb.Global := s3_pb.Global cfg;
                     s3_pb.Buckets := pre ++ post |} cb).1) /\
  (forall global,
     limitations (loadCircuitBreakerConfig
                    {| s3_pb.Global := global; s3_pb.Buckets := s3_pb.Buckets cfg |}
                    cb).1 =
     limitations (loadCircuitBreakerConfig
                    {| s3_pb.Global := None; s3_pb.Buckets := s3_pb.Buckets cfg |}
                    cb).1
     ∪ limitations (loadCircuitBreakerConfig
                      {| s3_pb.Global := global; s3_pb.Buckets := [] |} cb).1).
Proof.
  intros Hb. rewrite !loadCircuitBreakerConfig_eq. cbn [fst limitations].
  split; [| split].
  - intros Hen action threshold Ha.
    assert (Hin : In (Concat [bucket; action], threshold)
                     (bucket_entries Concat (s3_pb.Buckets cfg))).
    { apply (bucket_entries_elem _ bucket options); [| exact Hen | exact Ha].
      rewrite Hb. apply in_elt. }
    split.
    { apply lookup_insert_all_is_Some, in_map_iff.
      now exists (Concat [bucket; action], threshold). }
    intros Hnd. now apply lookup_insert_all_elem.
  - intros Hdis. rewrite Hb. cbn [s3_pb.Global s3_pb.Buckets].
    rewrite !bucket_entries_app.
    change ((bucket, options) :: post) with ([(bucket, options)] ++ post).
    rewrite bucket_entries_app. unfold bucket_entries at 2.
    cbn [flat_map fst snd]. now rewrite Hdis.
  - intros global. rewrite !loadCircuitBreakerConfig_eq.
    cbn [fst limitations s3_pb.Global s3_pb.Buckets global_table bucket_entries flat_map].
    rewrite insert_all_union. now f_equal.
Qed.

(** ** Properties of the wrapper and of the gate *)

(** Every atomic operation on a counter lets the scheduled goroutines
    run first: a run that leaves a non-empty schedule as it was has
    performed none. *)
Lemma counter_Load_advances (key : string) (w : World) :
  others w <> [] -> others (counter_Load key w).2 <> others w.
Proof.
  rewrite counter_Load_eq. unfold yield. cbn [snd].
  destruct (others w) as [|batch rest]; [congruence |]. cbn [snd others].
  intros _ Heq. apply (f_equal length) in Heq. simpl in Heq. lia.
Qed.

Lemma counter_Add_advances (key : string) (d : Z) (w : World) :
  others w <> [] -> others (counter_Add key d w).2 <> others w.
Proof.
  rewrite counter_Add_eq. unfold yield, update_counters. cbn [snd].
  destruct (others w) as [|batch rest]; [congruence |]. cbn [snd others].
  intros _ Heq. apply (f_equal length) in Heq. simpl in Heq. lia.
Qed.

Lemma counter_Sub_advances (key : string) (d : Z) (w : World) :
  others w <> [] -> others (counter_Sub key d w).2 <> others w.
Proof.
  rewrite counter_Sub_eq. unfold yield, update_counters. cbn [snd].
  destruct (others w) as [|batch rest]; [congruence |]. cbn [snd others].
  intros _ Heq. apply (f_equal length) in Heq. simpl in Heq. lia.
Qed.

(** C2.  When the flag [Enabled] is false, the handler that [Limit]
    returns runs the wrapped handler [f] on every request and answers
    with what [f] wrote, never with an error; the world after the call
    is the world before it: the counter store, the limit table and the
    schedule of the other goroutines are untouched, so no counter was
    created or changed, and none was read (a read would have let the
    scheduled goroutines run).  Nothing is assumed of the limit table,
    which may hold thresholds of enabled buckets. *)
Theorem C2_disabled_gate_runs_handler {R : Type} (f : Request -> R)
    (action : string) (r : Request) (w : World) :
  Enabled (breaker w) = false ->
  (Limit f action).1 r w = (Served (f r), w).
Proof.
  intros Hoff. rewrite Limit_eq. now rewrite Hoff.
Qed.

(** C5.  The gate is the evaluation, one after the other and stopping at
    the first rejection, of the four checks of [four_checks] in their
    order: bucket count with increment 1, bucket bytes with the declared
    content length, global count with increment 1, global bytes with the
    declared content length; the count checks carry
    [ErrTooManyRequest], the bytes checks [ErrRequestBytesExceed].  The
    results agree in the error code, the collected release actions and
    the world. *)
Theorem C5_four_checks_in_fixed_order (r : Request) (bucket action : string)
    (w : World) :
  limit r bucket action w = evaluate_in_order action (four_checks r bucket) [] w.
Proof. apply limit_as_evaluation. Qed.

(** C6.  When the decoding of the bytes fails, the load returns the
    error "unmarshal error: ..." with the decoder's message and the
    breaker is the one before the call: flag and limit table are as they
    were.  A breaker built by [NewCircuitBreaker] whose configuration
    could not be read or decoded is the initial one (flag false, empty
    limit table, no counter), and it hands every request to the wrapped
    handler. *)
Theorem C6_decode_failure_keeps_state (content : list Byte.byte) (err : string)
    (cb : CircuitBreaker) :
  ParseS3ConfigurationFromBytes content = inr err ->
  LoadS3ApiConfigurationFromBytes content cb
    = (cb, Some ("unmarshal error: " ++ err)%string) /\
  NewCircuitBreaker (inr content)
    = {| Enabled := false; counters := ∅; limitations := ∅ |} /\
  (forall read_error,
     NewCircuitBreaker (inl read_error)
     = {| Enabled := false; counters := ∅; limitations := ∅ |}) /\
  (forall (R : Type) (f : Request -> R) action r schedule,
     (Limit f action).1 r
       {| breaker := NewCircuitBreaker (inr content); others := schedule |}
     = (Served (f r),
        {| breaker := NewCircuitBreaker (inr content); others := schedule |})).
Proof.
  intros Hfail.
  assert (Hload : LoadS3ApiConfigurationFromBytes content cb
                  = (cb, Some ("unmarshal error: " ++ err)%string)).
  { unfold LoadS3ApiConfigurationFromBytes. now rewrite Hfail. }
  assert (Hnew : NewCircuitBreaker (inr content)
                 = {| Enabled := false; counters := ∅; limitations := ∅ |}).
  { unfold NewCircuitBreaker, LoadS3ApiConfigurationFromBytes. now rewrite Hfail. }
  repeat split; try assumption; try reflexivity.
  intros R f action r schedule. rewrite Limit_eq, Hnew. reflexivity.
Qed.

(** C4.  Whatever the outcome of the gate for a request (admitted,
    rejected by a first comparison, rejected by a comparison after the
    increment), once the release actions it collected have run, every
    counter holds the value it had before the checks began, moved only
    by what the other goroutines did meanwhile: the request's own
    increments are undone exactly.  No counter is removed.  The same
    holds of any sequence of requests served to completion by wrapped
    handlers.  In particular, when no other goroutine is scheduled,
    every counter is back at its value before (a counter installed on
    the way holds 0, the value of an absent counter), and the counters
    that existed hold their old values. *)
Theorem C4_release_restores_counters {R : Type} (f : Request -> R)
    (r : Request) (bucket action : string) (reqs : list (string * Request))
    (w : World) :
  counters_ok (counters (breaker w)) ->
  let gate := limit r bucket action w in
  let released := (run_rollback gate.1.1 gate.2).2 in
  let served := (serve_all f reqs w).2 in
  (exists done,
     others w = done ++ others released /\
     forall key,
       counter_value key (counters (breaker released)) =
       counter_value key (others_run (concat done) (counters (breaker w)))) /\
  (exists done,
     others w = done ++ others served /\
     forall key,
       counter_value key (counters (breaker served)) =
       counter_value key (others_run (concat done) (counters (breaker w)))) /\
  (others w = [] ->
   forall key,
     counter_value key (counters (breaker released)) =
     counter_value key (counters (breaker w)) /\
     counter_value key (counters (breaker served)) =
     counter_value key (counters (breaker w)) /\
     forall v, counters (breaker w) !! key = Some v ->
               counters (breaker released) !! key = Some v /\
               counters (breaker served) !! key = Some v).
Proof.
  intros Hok gate released served.
  assert (Hrel : effect w released (fun _ => 0)).
  { eapply effect_ext;
      [| eapply effect_trans;
         [apply (effect_limit r bucket action w)
         | apply (effect_run_rollback gate.1.1 gate.2)]].
    intros k. simpl. fold gate. lia. }
  assert (Hsrv : effect w served (fun _ => 0)) by apply effect_serve_all.
  split; [now apply effect_nothing_held |].
  split; [now apply effect_nothing_held |].
  intros Halone key.
  destruct (effect_nothing_held _ _ Hrel Hok) as (d1 & Hd1 & Hv1).
  destruct (effect_nothing_held _ _ Hsrv Hok) as (d2 & Hd2 & Hv2).
  rewrite Halone in Hd1, Hd2.
  symmetry in Hd1, Hd2.
  apply app_eq_nil in Hd1 as [-> _]. apply app_eq_nil in Hd2 as [-> _].
  specialize (Hv1 key). specialize (Hv2 key). simpl in Hv1, Hv2.
  split; [exact Hv1 |]. split; [exact Hv2 |].
  intros v Hv.
  destruct Hrel as (_ & _ & [_ Hk1] & _). destruct Hsrv as (_ & _ & [_ Hk2] & _).
  destruct (Hk1 key (ex_intro _ v Hv)) as [v1 Hv1'].
  destruct (Hk2 key (ex_intro _ v Hv)) as [v2 Hv2'].
  unfold counter_value in Hv1, Hv2. rewrite Hv in Hv1, Hv2.
  rewrite Hv1' in Hv1 |- *. rewrite Hv2' in Hv2 |- *.
  simpl in Hv1, Hv2. subst. now split.
Qed.

(** ** One check *)

Lemma yield_alone (w : World) : others w = [] -> yield w = (tt, w).
Proof. intros Halone. unfold yield. now rewrite Halone. Qed.

(** The outcomes of one check on a key with a registered threshold, the
    sum of the first comparison being Go's [current+inc] on [int64].
    When the sum exceeds the threshold the check returns no release and
    the error code, and holds nothing on the counter.  Otherwise it
    returns the release of [inc] on that counter and holds [inc] on it,
    whether the second comparison, on the value the counter has in the
    final world, rejects or not; the release gives back exactly
    [inc]. *)
Lemma single_check_outcomes (bucket action limitType : string) (inc : Z)
    (errCode : s3err.ErrorCode) (w : World) (max : Z) :
  let key := Concat [bucket; action; limitType] in
  let current := counter_value key (counters (breaker (at_first_load key w))) in
  let res := loadCounterAndCompare bucket action limitType inc errCode w in
  let rf := {| rel_counter := key; rel_inc := inc |} in
  limitations (breaker w) !! key = Some max ->
  (max < add64 current inc ->
   res.1 = (None, errCode) /\ res.2 = at_first_load key w /\
   effect w res.2 (fun _ => 0)) /\
  (add64 current inc <= max ->
   res.1.1 = Some rf /\
   res.1.2 = (if max <? counter_value key (counters (breaker res.2))
              then errCode else s3err.ErrNone) /\
   res.2 = at_second_load key inc w /\
   effect w res.2 (own_of key inc) /\
   forall w2, effect w2 (run_release rf w2).2 (own_of key (- inc))).
Proof.
  intros key current res rf Hmax. subst res.
  rewrite (loadCounterAndCompare_limited _ _ _ _ _ _ _ Hmax).
  fold key. fold current. split.
  - intros Hgt. apply Z.ltb_lt in Hgt. rewrite Hgt. cbn [fst snd].
    split; [reflexivity |]. split; [reflexivity |]. apply effect_at_first_load.
  - intros Hle. apply Z.ltb_ge in Hle. rewrite Hle. cbn [fst snd].
    split; [reflexivity |]. split; [reflexivity |]. split; [reflexivity |].
    split; [apply effect_at_second_load |].
    intros w2. apply effect_counter_Sub.
Qed.

(** A key with no registered threshold: the check passes and the world
    is untouched. *)
Lemma unregistered_key_passes (bucket action limitType : string) (inc : Z)
    (errCode : s3err.ErrorCode) (w : World) :
  limitations (breaker w) !! Concat [bucket; action; limitType] = None ->
  loadCounterAndCompare bucket action limitType inc errCode w
  = ((None, s3err.ErrNone), w).
Proof. apply loadCounterAndCompare_unlimited. Qed.

(** The global step of the loader writes each entry under the name it
    has in the configuration, without [Concat]. *)
Lemma global_entries_keep_their_names (g : s3_pb.S3CircuitBreakerOptions)
    (cb : CircuitBreaker) (key : string) (threshold : Z) :
  limitations (loadCircuitBreakerConfig
                 {| s3_pb.Global := Some g; s3_pb.Buckets := [] |} cb).1 !! key
  = Some threshold ->
  In (key, threshold) (s3_pb.Actions g).
Proof.
  rewrite loadCircuitBreakerConfig_eq.
  cbn [fst limitations s3_pb.Global s3_pb.Buckets global_table bucket_entries
       flat_map insert_all foldl].
  destruct (_ && _).
  - intros Hl. apply lookup_insert_all_inv in Hl as [Hin|Hl]; [exact Hin |].
    now rewrite lookup_empty in Hl.
  - now rewrite lookup_empty.
Qed.

(** Hence a global check whose key [Concat [""; action; limitType]] is
    not itself the name of an entry of the global section finds no
    threshold and passes, whatever the counters. *)
Lemma global_check_finds_no_threshold (g : s3_pb.S3CircuitBreakerOptions)
    (cb : CircuitBreaker) (action limitType : string) (inc : Z)
    (errCode : s3err.ErrorCode) (w : World) :
  breaker w = (loadCircuitBreakerConfig
                 {| s3_pb.Global := Some g; s3_pb.Buckets := [] |} cb).1 ->
  ~ In (Concat [""%string; action; limitType]) (map fst (s3_pb.Actions g)) ->
  loadCounterAndCompare "" action limitType inc errCode w
  = ((None, s3err.ErrNone), w).
Proof.
  intros Hw Hnotin. apply loadCounterAndCompare_unlimited.
  destruct (limitations (breaker w) !! _) as [v|] eqn:Hl; [| reflexivity].
  rewrite Hw in Hl. apply global_entries_keep_their_names in Hl.
  exfalso. apply Hnotin. apply in_map_iff. now exists (Concat [""%string; action; limitType], v).
Qed.

(** C10.  A bytes check for a request whose declared content length
    [inc] is negative, on a key with a registered threshold, when no
    other goroutine runs during the check and the decrease does not
    underflow [int64]: if the counter does not exceed the threshold
    when the check starts, both comparisons pass, the counter is lower
    by [-inc] while the request is in flight (below zero when it was
    less than [-inc]) and the release puts it back; if the counter
    exceeds the threshold by more than [-inc], the check rejects with
    [ErrRequestBytesExceed] and leaves the counter as it was. *)
Theorem C10_negative_length_bytes_check (bucket action : string) (inc max : Z)
    (w : World) :
  let key := Concat [bucket; action; LimitTypeBytes] in
  let current := counter_value key (counters (breaker w)) in
  let res := loadCounterAndCompare bucket action LimitTypeBytes inc
               s3err.ErrRequestBytesExceed w in
  let rf := {| rel_counter := key; rel_inc := inc |} in
  limitations (breaker w) !! key = Some max ->
  others w = [] ->
  counters_ok (counters (breaker w)) ->
  inc < 0 ->
  - 2 ^ 63 <= current + inc ->
  (current <= max ->
   res.1 = (Some rf, s3err.ErrNone) /\
   counter_value key (counters (breaker res.2)) = current + inc /\
   counter_value key (counters (breaker (run_release rf res.2).2)) = current) /\
  (max < current + inc ->
   res.1 = (None, s3err.ErrRequestBytesExceed) /\
   counter_value key (counters (breaker res.2)) = current).
Proof.
  intros key current res rf Hmax Halone Hok Hneg Hlow. subst res.
  pose proof (counter_value_int64 key _ Hok) as Hcur. fold current in Hcur.
  assert (Hsum : add64 current inc = current + inc).
  { apply add64_exact. unfold int64 in *. lia. }
  assert (H1 : at_first_load key w = (counter_install key w).2).
  { unfold at_first_load. now rewrite yield_alone. }
  assert (Hc1 : counter_value key (counters (breaker (at_first_load key w))) = current).
  { rewrite H1. apply counter_value_install. }
  assert (H2 : at_second_load key inc w
               = (update_counters (store_add key inc) (counter_install key w).2).2).
  { unfold at_second_load, after_add. rewrite counter_Add_eq, H1. cbn [snd].
    rewrite (yield_alone (counter_install key w).2) by exact Halone.
    now rewrite yield_alone. }
  assert (Hc2 : counter_value key (counters (breaker (at_second_load key inc w)))
                = current + inc).
  { rewrite H2. cbn [snd update_counters breaker counters with_counters].
    rewrite counter_value_store_add, decide_True by reflexivity.
    fold (counter_value key (counters (breaker (counter_install key w).2))).
    now rewrite counter_value_install. }
  rewrite (loadCounterAndCompare_limited _ _ _ _ _ _ _ Hmax).
  fold key. rewrite Hc1.
  rewrite Hc2, Hsum. split.
  - intros Hle.
    assert (Hpass : (max <? current + inc) = false) by (apply Z.ltb_ge; lia).
    rewrite Hpass. cbn [fst snd]. split; [reflexivity |]. split; [exact Hc2 |].
    subst rf. unfold run_release. cbn [rel_counter rel_inc]. rewrite counter_Sub_eq.
    rewrite yield_alone by (rewrite H2; exact Halone).
    cbn [snd update_counters breaker counters with_counters].
    rewrite counter_value_store_sub, decide_True by reflexivity.
    rewrite Hc2. unfold sub64.
    replace (current + inc - inc) with current by lia.
    now apply wrap64_id.
  - intros Hgt.
    assert (Hrej : (max <? current + inc) = true) by (apply Z.ltb_lt; lia).
    rewrite Hrej. cbn [fst snd]. split; [reflexivity | exact Hc1].
Qed.

(** ** A goroutine that runs alone *)

Lemma alone_first_load (key : string) (w : World) :
  others w = [] -> at_first_load key w = (counter_install key w).2.
Proof. intros Halone. unfold at_first_load. now rewrite yield_alone. Qed.

Lemma alone_second_load (key : string) (inc : Z) (w : World) :
  others w = [] -> at_second_load key inc w = alone_after_add key inc w.
Proof.
  intros Halone. unfold at_second_load, after_add, alone_after_add.
  rewrite counter_Add_eq, alone_first_load by exact Halone. cbn [snd].
  rewrite (yield_alone (counter_install key w).2) by exact Halone.
  now rewrite yield_alone.
Qed.

Lemma counter_value_alone_after_add (key k : string) (inc : Z) (w : World) :
  counter_value k (counters (breaker (alone_after_add key inc w))) =
  if decide (k = key)
  then add64 (counter_value key (counters (breaker w))) inc
  else counter_value k (counters (breaker w)).
Proof.
  unfold alone_after_add. cbn [snd update_counters breaker counters with_counters].
  rewrite counter_value_store_add.
  fold (counter_value key (counters (breaker (counter_install key w).2))).
  fold (counter_value k (counters (breaker (counter_install key w).2))).
  now rewrite !counter_value_install.
Qed.

(** One check of a goroutine that runs alone, on a key with a threshold:
    the first comparison decides, and the second never rejects. *)
Lemma loadCounterAndCompare_alone (bucket action limitType : string) (inc : Z)
    (errCode : s3err.ErrorCode) (w : World) (max : Z) :
  let key := Concat [bucket; action; limitType] in
  others w = [] ->
  limitations (breaker w) !! key = Some max ->
  loadCounterAndCompare bucket action limitType inc errCode w =
  if max <? add64 (counter_value key (counters (breaker w))) inc
  then ((None, errCode), (counter_install key w).2)
  else ((Some {| rel_counter := key; rel_inc := inc |}, s3err.ErrNone),
        alone_after_add key inc w).
Proof.
  intros key Halone Hmax.
  rewrite (loadCounterAndCompare_limited _ _ _ _ _ _ _ Hmax). fold key.
  rewrite alone_first_load, alone_second_load by exact Halone.
  rewrite counter_value_install, counter_value_alone_after_add.
  rewrite decide_True by reflexivity.
  now destruct (max <? add64 _ inc).
Qed.

(** ** Further properties of the gate *)

(** A check of a goroutine that runs alone, on a key with a threshold,
    when the sum of the counter and the increment is an [int64]: the
    check admits exactly when the sum does not exceed the threshold.  On
    admission it returns the release of [inc] and the counter holds the
    sum; on rejection it returns no release and the counter is as it
    was.  No other counter changes, and the schedule and the limit table
    are left alone. *)
Theorem check_alone_admits_iff_sum_within_threshold
    (bucket action limitType : string) (inc : Z) (errCode : s3err.ErrorCode)
    (w : World) (max : Z) :
  let key := Concat [bucket; action; limitType] in
  let current := counter_value key (counters (breaker w)) in
  let res := loadCounterAndCompare bucket action limitType inc errCode w in
  others w = [] ->
  limitations (breaker w) !! key = Some max ->
  int64 (current + inc) ->
  (current + inc <= max ->
   res.1 = (Some {| rel_counter := key; rel_inc := inc |}, s3err.ErrNone) /\
   counter_value key (counters (breaker res.2)) = current + inc) /\
  (max < current + inc ->
   res.1 = (None, errCode) /\
   counter_value key (counters (breaker res.2)) = current) /\
  (forall k, k <> key ->
     counter_value k (counters (breaker res.2)) = counter_value k (counters (breaker w))) /\
  others res.2 = [] /\
  limitations (breaker res.2) = limitations (breaker w).
Proof.
  intros key current res Halone Hmax Hsum. subst res.
  rewrite (loadCounterAndCompare_alone _ _ _ _ _ _ _ Halone Hmax).
  fold key. fold current. rewrite (add64_exact _ _ Hsum).
  split; [| split; [| split; [| split]]].
  - intros Hle. assert (Hc : (max <? current + inc) = false) by (apply Z.ltb_ge; lia).
    rewrite Hc. cbn [fst snd]. split; [reflexivity |].
    rewrite counter_value_alone_after_add, decide_True by reflexivity.
    apply (add64_exact _ _ Hsum).
  - intros Hgt. assert (Hc : (max <? current + inc) = true) by (apply Z.ltb_lt; lia).
    rewrite Hc. cbn [fst snd]. split; [reflexivity |]. apply counter_value_install.
  - intros k Hk. destruct (max <? current + inc); cbn [snd].
    + apply counter_value_install.
    + rewrite counter_value_alone_after_add. now rewrite decide_False.
  - destruct (max <? current + inc); exact Halone.
  - now destruct (max <? current + inc).
Qed.

(** A goroutine that runs alone is never rejected by the comparison after
    the increment: when its check rejects, it returns no release and no
    counter has moved.  This holds even where the sum overflows. *)
Theorem alone_rejection_is_by_first_comparison
    (bucket action limitType : string) (inc : Z) (errCode : s3err.ErrorCode)
    (w : World) (max : Z) :
  let key := Concat [bucket; action; limitType] in
  let res := loadCounterAndCompare bucket action limitType inc errCode w in
  others w = [] ->
  limitations (breaker w) !! key = Some max ->
  res.1.2 <> s3err.ErrNone ->
  res.1 = (None, errCode) /\
  forall k, counter_value k (counters (breaker res.2))
            = counter_value k (counters (breaker w)).
Proof.
  intros key res Halone Hmax. subst res.
  rewrite (loadCounterAndCompare_alone _ _ _ _ _ _ _ Halone Hmax). fold key.
  destruct (max <? add64 _ inc); cbn [fst snd]; [| congruence].
  intros _. split; [reflexivity |]. intros k. apply counter_value_install.
Qed.

Lemma loadCounterAndCompare_admitted
    (bucket action limitType : string) (inc : Z) (errCode : s3err.ErrorCode)
    (w : World) (max : Z) :
  let key := Concat [bucket; action; limitType] in
  let res := loadCounterAndCompare bucket action limitType inc errCode w in
  limitations (breaker w) !! key = Some max ->
  errCode <> s3err.ErrNone ->
  res.1.2 = s3err.ErrNone ->
  res.1.1 = Some {| rel_counter := key; rel_inc := inc |} /\
  counter_value key (counters (breaker res.2)) <= max.
Proof.
  intros key res Hmax Herr. subst res.
  rewrite (loadCounterAndCompare_limited _ _ _ _ _ _ _ Hmax). fold key.
  destruct (max <? add64 _ inc); cbn [fst snd]; [congruence |].
  destruct (max <? counter_value key _) eqn:Hcmp; [congruence |].
  intros _. split; [reflexivity |]. now apply Z.ltb_ge.
Qed.


(** A request none of whose four keys has a threshold passes the gate
    with no release action, and the world is untouched: no counter is
    installed and the other goroutines are not even given a turn.  The
    wrapped handler then always serves it. *)
Theorem request_without_thresholds_is_admitted {R : Type} (f : Request -> R)
    (r : Request) (bucket action : string) (w : World) :
  limitations (breaker w) !! Concat [bucket; action; LimitTypeCount] = None ->
  limitations (breaker w) !! Concat [bucket; action; LimitTypeBytes] = None ->
  limitations (breaker w) !! Concat [""%string; action; LimitTypeCount] = None ->
  limitations (breaker w) !! Concat [""%string; action; LimitTypeBytes] = None ->
  limit r bucket action w = (([], s3err.ErrNone), w) /\
  (default ""%string (Vars r !! "bucket"%string) = bucket ->
   (Limit f action).1 r w = (Served (f r), w)).
Proof.
  intros H1 H2 H3 H4.
  assert (Hgate : limit r bucket action w = (([], s3err.ErrNone), w)).
  { unfold limit.
    rewrite run_bind_eq, (loadCounterAndCompare_unlimited _ _ _ _ _ _ H1).
    cbn [fst snd append_rollback s3err.eqb negb].
    rewrite run_bind_eq, (loadCounterAndCompare_unlimited _ _ _ _ _ _ H2).
    cbn [fst snd append_rollback s3err.eqb negb].
    rewrite run_bind_eq, (loadCounterAndCompare_unlimited _ _ _ _ _ _ H3).
    cbn [fst snd append_rollback s3err.eqb negb].
    rewrite run_bind_eq, (loadCounterAndCompare_unlimited _ _ _ _ _ _ H4).
    reflexivity. }
  split; [exact Hgate |].
  intros Hb. rewrite Limit_eq. destruct (Enabled (breaker w)); [| reflexivity].
  cbv zeta. rewrite Hb, Hgate. reflexivity.
Qed.

Lemma evaluate_in_order_admitted (action : string) (checks : list Check)
    (rollback : list Release) (w : World) :
  Forall (fun c => check_code c <> s3err.ErrNone) checks ->
  (evaluate_in_order action checks rollback w).1.2 = s3err.ErrNone ->
  (evaluate_in_order action checks rollback w).1.1
  = rollback ++ registered_releases (limitations (breaker w)) action checks.
Proof.
  intros Hcodes. revert rollback w.
  induction Hcodes as [|c rest Hc Hrest IH]; intros rollback w.
  - intros _. simpl. now rewrite app_nil_r.
  - cbn [evaluate_in_order registered_releases flat_map]. rewrite run_bind_eq.
    pose proof (effect_loadCounterAndCompare (check_scope c) action (check_metric c)
                  (check_inc c) (check_code c) w) as (_ & Hlim & _).
    destruct (limitations (breaker w)
                !! Concat [check_scope c; action; check_metric c]) as [max|] eqn:Hk.
    + pose proof (loadCounterAndCompare_admitted (check_scope c) action
                    (check_metric c) (check_inc c) (check_code c) w max Hk Hc) as Hadm.
      cbv zeta in Hadm.
      destruct (loadCounterAndCompare _ _ _ _ _ w) as [[f e] w1]; cbn [fst snd] in *.
      destruct e; cbn [fst snd]; try discriminate.
      intros Hok. destruct (Hadm eq_refl) as [-> _].
      cbn [append_rollback] in Hok |- *.
      rewrite (IH _ _ Hok), Hlim. unfold registered_releases.
      now rewrite <- app_assoc.
    + rewrite (loadCounterAndCompare_unlimited _ _ _ _ _ _ Hk) in *.
      cbn [fst snd append_rollback]. intros Hok.
      now rewrite (IH _ _ Hok).
Qed.

(** A request that the gate admits holds exactly one increment for each
    of its four checks whose key has a threshold, in the order of the
    checks, whatever the other goroutines do meanwhile. *)
Theorem admitted_request_holds_registered_checks (r : Request)
    (bucket action : string) (w : World) :
  (limit r bucket action w).1.2 = s3err.ErrNone ->
  (limit r bucket action w).1.1
  = registered_releases (limitations (breaker w)) action (four_checks r bucket).
Proof.
  rewrite limit_as_evaluation. intros Hok.
  rewrite evaluate_in_order_admitted; [reflexivity | | exact Hok].
  unfold four_checks. repeat constructor; discriminate.
Qed.

(** Passing the gate, serving a request and serving a sequence of
    requests never change the flag or the limit table, never remove a
    counter, and keep the counters [int64], whatever the schedule. *)
Theorem serving_keeps_flag_and_table {R : Type} (f : Request -> R)
    (r : Request) (bucket action : string) (reqs : list (string * Request))
    (w : World) :
  let after_gate := (limit r bucket action w).2 in
  let after_reply := ((Limit f action).1 r w).2 in
  let after_all := (serve_all f reqs w).2 in
  (Enabled (breaker after_gate) = Enabled (breaker w) /\
   limitations (breaker after_gate) = limitations (breaker w) /\
   counters_grow (counters (breaker w)) (counters (breaker after_gate))) /\
  (Enabled (breaker after_reply) = Enabled (breaker w) /\
   limitations (breaker after_reply) = limitations (breaker w) /\
   counters_grow (counters (breaker w)) (counters (breaker after_reply))) /\
  (Enabled (breaker after_all) = Enabled (breaker w) /\
   limitations (breaker after_all) = limitations (breaker w) /\
   counters_grow (counters (breaker w)) (counters (breaker after_all))).
Proof.
  cbv zeta.
  destruct (effect_limit r bucket action w) as (He1 & Hl1 & Hg1 & _).
  destruct (effect_Limit f action r w) as (He2 & Hl2 & Hg2 & _).
  destruct (effect_serve_all f reqs w) as (He3 & Hl3 & Hg3 & _).
  split; [| split]; (split; [assumption | split; assumption]).
Qed.

Lemma alone_after_add_frame (key : string) (inc : Z) (w : World) :
  others (alone_after_add key inc w) = others w /\
  limitations (breaker (alone_after_add key inc w)) = limitations (breaker w) /\
  Enabled (breaker (alone_after_add key inc w)) = Enabled (breaker w).
Proof. split; [| split]; reflexivity. Qed.

Lemma counter_install_frame (key : string) (w : World) :
  others (counter_install key w).2 = others w /\
  limitations (breaker (counter_install key w).2) = limitations (breaker w) /\
  Enabled (breaker (counter_install key w).2) = Enabled (breaker w).
Proof. split; [| split]; reflexivity. Qed.

(** The gate of a goroutine that runs alone when, of the four keys, only
    the bucket count key has a threshold. *)
Lemma limit_only_bucket_count (r : Request) (bucket action : string) (w : World)
    (max : Z) :
  let key := Concat [bucket; action; LimitTypeCount] in
  others w = [] ->
  limitations (breaker w) !! key = Some max ->
  limitations (breaker w) !! Concat [bucket; action; LimitTypeBytes] = None ->
  limitations (breaker w) !! Concat [""%string; action; LimitTypeCount] = None ->
  limitations (breaker w) !! Concat [""%string; action; LimitTypeBytes] = None ->
  limit r bucket action w =
  if max <? add64 (counter_value key (counters (breaker w))) 1
  then (([], s3err.ErrTooManyRequest), (counter_install key w).2)
  else (([{| rel_counter := key; rel_inc := 1 |}], s3err.ErrNone),
        alone_after_add key 1 w).
Proof.
  intros key Halone H1 H2 H3 H4. unfold limit.
  rewrite run_bind_eq, (loadCounterAndCompare_alone _ _ _ _ _ _ _ Halone H1). fold key.
  destruct (max <? add64 _ 1); cbn [fst snd append_rollback s3err.eqb negb];
    [reflexivity |].
  rewrite run_bind_eq,
    (loadCounterAndCompare_unlimited _ _ _ _ _ (alone_after_add key 1 w) H2).
  cbn [fst snd append_rollback s3err.eqb negb].
  rewrite run_bind_eq,
    (loadCounterAndCompare_unlimited _ _ _ _ _ (alone_after_add key 1 w) H3).
  cbn [fst snd append_rollback s3err.eqb negb].
  rewrite run_bind_eq,
    (loadCounterAndCompare_unlimited _ _ _ _ _ (alone_after_add key 1 w) H4).
  reflexivity.
Qed.

Lemma enter_all_capacity (bucket action : string) (max : Z) (reqs : list Request) :
  forall w : World,
    others w = [] ->
    limitations (breaker w) !! Concat [bucket; action; LimitTypeCount] = Some max ->
    limitations (breaker w) !! Concat [bucket; action; LimitTypeBytes] = None ->
    limitations (breaker w) !! Concat [""%string; action; LimitTypeCount] = None ->
    limitations (breaker w) !! Concat [""%string; action; LimitTypeBytes] = None ->
    - 2 ^ 63 <= counter_value (Concat [bucket; action; LimitTypeCount])
                  (counters (breaker w)) <= max ->
    max + 1 < 2 ^ 63 ->
    let room := Z.to_nat (max - counter_value (Concat [bucket; action; LimitTypeCount])
                                  (counters (breaker w))) in
    (enter_all bucket action reqs w).1 =
      repeat s3err.ErrNone (Nat.min (length reqs) room)
      ++ repeat s3err.ErrTooManyRequest (length reqs - room) /\
    counter_value (Concat [bucket; action; LimitTypeCount])
      (counters (breaker (enter_all bucket action reqs w).2))
    = counter_value (Concat [bucket; action; LimitTypeCount]) (counters (breaker w))
      + Z.of_nat (Nat.min (length reqs) room).
Proof.
  set (key := Concat [bucket; action; LimitTypeCount]).
  induction reqs as [|r rest IH]; intros w Halone H1 H2 H3 H4 Hc Hmax room.
  - simpl. split; [reflexivity | lia].
  - cbn [enter_all]. rewrite run_bind_eq.
    rewrite (limit_only_bucket_count r bucket action w max Halone H1 H2 H3 H4).
    fold key. set (c := counter_value key (counters (breaker w))) in *.
    destruct (max <? add64 c 1) eqn:Hcmp; cbn [fst snd]; rewrite run_bind_eq.
    + (* the counter is at the threshold *)
      assert (Hfull : c = max).
      { apply Z.ltb_lt in Hcmp. rewrite add64_exact in Hcmp by (unfold int64; lia). lia. }
      assert (Hroom : room = 0%nat) by (subst room; lia).
      specialize (IH (counter_install key w).2 Halone H1 H2 H3 H4).
      rewrite counter_value_install in IH. fold c in IH.
      destruct (IH Hc Hmax) as [IHcodes IHval]. fold room in IHcodes, IHval.
      unfold mret, run_ret. cbn [fst snd]. rewrite IHcodes, IHval, Hroom.
      rewrite Nat.min_0_r, Nat.sub_0_r. cbn [length repeat app Nat.min Nat.sub].
      split; [reflexivity | lia].
    + (* there is room *)
      assert (Hsum : add64 c 1 = c + 1).
      { apply add64_exact. unfold int64. lia. }
      assert (Hlt : c < max) by (apply Z.ltb_ge in Hcmp; lia).
      assert (Hroom : room = S (Z.to_nat (max - (c + 1)))) by (subst room; lia).
      specialize (IH (alone_after_add key 1 w) Halone H1 H2 H3 H4).
      rewrite counter_value_alone_after_add, decide_True in IH by reflexivity.
      fold c in IH. rewrite Hsum in IH.
      destruct (IH ltac:(lia) Hmax) as [IHcodes IHval].
      unfold mret, run_ret. cbn [fst snd]. rewrite IHcodes, IHval, Hroom.
      cbn [length repeat app Nat.min Nat.sub].
      split; [reflexivity | lia].
Qed.

(** Capacity of a count threshold.  A goroutine runs alone; of the four
    keys of the requests, only the bucket count key has a threshold,
    whose successor is an [int64]; the counter holds [c], not above the
    threshold.  When requests for that bucket and action enter the gate
    one after the other and stay in flight, the first [max - c] of them
    are admitted and every later one is rejected with
    [ErrTooManyRequest]; the counter ends at [c] plus the number
    admitted. *)
Theorem bucket_count_capacity (bucket action : string) (max : Z)
    (reqs : list Request) (w : World) :
  let key := Concat [bucket; action; LimitTypeCount] in
  let c := counter_value key (counters (breaker w)) in
  let room := Z.to_nat (max - c) in
  others w = [] ->
  limitations (breaker w) !! key = Some max ->
  limitations (breaker w) !! Concat [bucket; action; LimitTypeBytes] = None ->
  limitations (breaker w) !! Concat [""%string; action; LimitTypeCount] = None ->
  limitations (breaker w) !! Concat [""%string; action; LimitTypeBytes] = None ->
  - 2 ^ 63 <= c <= max ->
  max + 1 < 2 ^ 63 ->
  (enter_all bucket action reqs w).1 =
    repeat s3err.ErrNone (Nat.min (length reqs) room)
    ++ repeat s3err.ErrTooManyRequest (length reqs - room) /\
  counter_value key (counters (breaker (enter_all bucket action reqs w).2))
  = c + Z.of_nat (Nat.min (length reqs) room).
Proof.
  intros key c room Halone H1 H2 H3 H4 Hc Hmax.
  exact (enter_all_capacity bucket action max reqs w Halone H1 H2 H3 H4 Hc Hmax).
Qed.

(** The gate of a goroutine that runs alone for a request with the empty
    bucket name, when the count key has a threshold and the bytes key has
    none: the first and the third check are made on the same counter. *)
Lemma limit_without_bucket (r : Request) (action : string) (w : World) (max : Z) :
  let key := Concat [""%string; action; LimitTypeCount] in
  let c := counter_value key (counters (breaker w)) in
  let rf := {| rel_counter := key; rel_inc := 1 |} in
  others w = [] ->
  limitations (breaker w) !! key = Some max ->
  limitations (breaker w) !! Concat [""%string; action; LimitTypeBytes] = None ->
  - 2 ^ 63 <= c ->
  c + 2 < 2 ^ 63 ->
  (limit r "" action w).1 =
  if max <? c + 1 then ([], s3err.ErrTooManyRequest)
  else if max <? c + 2 then ([rf], s3err.ErrTooManyRequest)
       else ([rf; rf], s3err.ErrNone).
Proof.
  intros key c rf Halone Hk Hb Hlow Hhigh. unfold limit.
  rewrite run_bind_eq, (loadCounterAndCompare_alone _ _ _ _ _ _ _ Halone Hk).
  fold key. fold c. rewrite (add64_exact c 1) by (unfold int64; lia).
  destruct (max <? c + 1); cbn [fst snd append_rollback s3err.eqb negb];
    [reflexivity |].
  rewrite run_bind_eq,
    (loadCounterAndCompare_unlimited _ _ _ _ _ (alone_after_add key 1 w) Hb).
  cbn [fst snd append_rollback s3err.eqb negb].
  rewrite run_bind_eq,
    (loadCounterAndCompare_alone _ _ _ _ _ (alone_after_add key 1 w) _ Halone Hk).
  fold key. rewrite counter_value_alone_after_add, decide_True by reflexivity.
  fold c. rewrite (add64_exact c 1) by (unfold int64; lia).
  rewrite (add64_exact (c + 1) 1) by (unfold int64; lia).
  replace (c + 1 + 1) with (c + 2) by lia.
  destruct (max <? c + 2); cbn [fst snd append_rollback s3err.eqb negb app];
    [reflexivity |].
  rewrite run_bind_eq,
    (loadCounterAndCompare_unlimited _ _ _ _ _
       (alone_after_add key 1 (alone_after_add key 1 w)) Hb).
  reflexivity.
Qed.

(** A request whose route has no bucket variable is checked with the
    empty bucket name, so its bucket checks and its global checks use the
    same keys.  When the key [Concat [""; action; LimitTypeCount]] has a
    threshold (and the bytes key has none), a goroutine that runs alone
    counts the request twice on that counter: the request is served
    exactly when the counter plus 2 does not exceed the threshold, and is
    refused with [ErrTooManyRequest] otherwise.  With the counter at 0
    and a threshold of 1 the request is refused although nothing is in
    flight. *)
Theorem request_without_bucket_counts_twice {R : Type} (f : Request -> R)
    (action : string) (r : Request) (w : World) (max : Z) :
  let key := Concat [""%string; action; LimitTypeCount] in
  let c := counter_value key (counters (breaker w)) in
  Enabled (breaker w) = true ->
  Vars r !! "bucket"%string = None ->
  others w = [] ->
  limitations (breaker w) !! key = Some max ->
  limitations (breaker w) !! Concat [""%string; action; LimitTypeBytes] = None ->
  - 2 ^ 63 <= c ->
  c + 2 < 2 ^ 63 ->
  ((Limit f action).1 r w).1 =
  if max <? c + 2 then Refused s3err.ErrTooManyRequest else Served (f r).
Proof.
  intros key c Hon Hvars Halone Hk Hb Hlow Hhigh.
  rewrite Limit_eq, Hon, Hvars. cbv zeta. cbn [default fst].
  rewrite (limit_without_bucket r action w max Halone Hk Hb Hlow Hhigh).
  fold key. fold c.
  destruct (max <? c + 1) eqn:H1; destruct (max <? c + 2) eqn:H2;
    cbn [fst snd s3err.eqb]; try reflexivity.
  apply Z.ltb_lt in H1. apply Z.ltb_ge in H2. lia.
Qed.

(** A release makes room for an equal request.  A goroutine runs alone,
    the counter of a key with a threshold holds [c], not above the
    threshold, of which [d] is held by a request in flight; once that
    request's release has run, a check with the same increment [d] is
    admitted and the counter is back at [c]. *)
Theorem release_makes_room (bucket action limitType : string) (d : Z)
    (errCode : s3err.ErrorCode) (w : World) (max : Z) :
  let key := Concat [bucket; action; limitType] in
  let c := counter_value key (counters (breaker w)) in
  let rf := {| rel_counter := key; rel_inc := d |} in
  let released := (run_release rf w).2 in
  let res := loadCounterAndCompare bucket action limitType d errCode released in
  others w = [] ->
  limitations (breaker w) !! key = Some max ->
  int64 c -> int64 (c - d) ->
  c <= max ->
  counter_value key (counters (breaker released)) = c - d /\
  res.1 = (Some rf, s3err.ErrNone) /\
  counter_value key (counters (breaker res.2)) = c.
Proof.
  intros key c rf released res Halone Hmax Hc Hcd Hle.
  assert (Hrel : released = (update_counters (store_sub key d) w).2).
  { subst released rf. unfold run_release. cbn [rel_counter rel_inc].
    rewrite counter_Sub_eq. now rewrite yield_alone. }
  assert (Hval : counter_value key (counters (breaker released)) = c - d).
  { rewrite Hrel. cbn [snd update_counters breaker counters with_counters].
    rewrite counter_value_store_sub, decide_True by reflexivity.
    apply wrap64_id, Hcd. }
  assert (Halone' : others released = []) by (rewrite Hrel; exact Halone).
  assert (Hmax' : limitations (breaker released) !! key = Some max)
    by (rewrite Hrel; exact Hmax).
  split; [exact Hval |]. subst res.
  rewrite (loadCounterAndCompare_alone _ _ _ _ _ _ _ Halone' Hmax'). fold key.
  rewrite Hval.
  assert (Hsum : add64 (c - d) d = c).
  { rewrite add64_exact; [lia |]. now replace (c - d + d) with c by lia. }
  rewrite Hsum.
  assert (Hcmp : (max <? c) = false) by (apply Z.ltb_ge; lia).
  rewrite Hcmp. cbn [fst snd]. split; [reflexivity |].
  rewrite counter_value_alone_after_add, decide_True by reflexivity.
  fold key. now rewrite Hval.
Qed.

(** ** Further properties of the loader *)

Lemma bucket_entries_inv (buckets : list (string * s3_pb.S3CircuitBreakerOptions))
    (key : string) (threshold : Z) :
  In (key, threshold) (bucket_entries Concat buckets) ->
  exists bucket options action,
    In (bucket, options) buckets /\ s3_pb.Enabled options = true /\
    In (action, threshold) (s3_pb.Actions options) /\
    key = Concat [bucket; action].
Proof.
  unfold bucket_entries. intros Hin. apply in_flat_map in Hin as ([b o] & Hb & Hin).
  cbn [fst snd] in Hin. destruct (s3_pb.Enabled o) eqn:Hen; [| destruct Hin].
  apply in_map_iff in Hin as ([a v] & Heq & Ha). cbn [fst snd] in Heq.
  inversion Heq; subst. now exists b, o, a.
Qed.

(** Every threshold of the table after a load comes from the
    configuration: it is an entry of the global section, which is then
    enabled, under the entry's own name, or an entry of an enabled bucket
    under [Concat [bucket; action]].  Nothing of the table before the
    load is kept. *)
Theorem loaded_table_holds_only_configured_entries
    (cfg : s3_pb.S3CircuitBreakerConfig) (cb : CircuitBreaker)
    (key : string) (threshold : Z) :
  limitations (loadCircuitBreakerConfig cfg cb).1 !! key = Some threshold ->
  (exists g, s3_pb.Global cfg = Some g /\ s3_pb.Enabled g = true /\
             In (key, threshold) (s3_pb.Actions g)) \/
  (exists bucket options action,
     In (bucket, options) (s3_pb.Buckets cfg) /\ s3_pb.Enabled options = true /\
     In (action, threshold) (s3_pb.Actions options) /\
     key = Concat [bucket; action]).
Proof.
  rewrite loadCircuitBreakerConfig_eq. cbn [fst limitations]. intros Hl.
  apply lookup_insert_all_inv in Hl as [Hin|Hg].
  - right. now apply bucket_entries_inv.
  - left. unfold global_table in Hg. destruct (s3_pb.Global cfg) as [g|].
    + destruct (s3_pb.Enabled g) eqn:Hen; cbn [andb] in Hg.
      * destruct (0 <? Z.of_nat (length (s3_pb.Actions g))).
        -- apply lookup_insert_all_inv in Hg as [Hin|Hempty].
           ++ now exists g.
           ++ now rewrite lookup_empty in Hempty.
        -- now rewrite lookup_empty in Hg.
      * now rewrite lookup_empty in Hg.
    + now rewrite lookup_empty in Hg.
Qed.

(** An entry of an enabled global section is registered under its own
    name with its threshold, when the names of the section are distinct
    (as the keys of a Go map are) and no enabled bucket writes that
    key. *)
Theorem global_entries_registered_under_their_names
    (cfg : s3_pb.S3CircuitBreakerConfig) (cb : CircuitBreaker)
    (g : s3_pb.S3CircuitBreakerOptions) (name : string) (threshold : Z) :
  s3_pb.Global cfg = Some g ->
  s3_pb.Enabled g = true ->
  List.NoDup (map fst (s3_pb.Actions g)) ->
  In (name, threshold) (s3_pb.Actions g) ->
  ~ In name (bucket_keys Concat (s3_pb.Buckets cfg)) ->
  Enabled (loadCircuitBreakerConfig cfg cb).1 = true /\
  limitations (loadCircuitBreakerConfig cfg cb).1 !! name = Some threshold.
Proof.
  intros Hg Hen Hnd Hin Hfree. rewrite loadCircuitBreakerConfig_eq.
  cbn [fst limitations Enabled]. unfold global_table. rewrite Hg, Hen. cbn [andb].
  assert (Hlen : (0 <? Z.of_nat (length (s3_pb.Actions g))) = true).
  { destruct (s3_pb.Actions g); [destruct Hin | reflexivity]. }
  rewrite Hlen. split; [reflexivity |].
  rewrite lookup_insert_all_other by exact Hfree.
  now apply lookup_insert_all_elem.
Qed.

(** The last load wins: loading a configuration over a breaker that was
    loaded before gives the breaker that loading it directly gives; flag
    and table of the earlier load leave no trace. *)
Theorem last_load_wins (cfg1 cfg2 : s3_pb.S3CircuitBreakerConfig)
    (cb : CircuitBreaker) :
  loadCircuitBreakerConfig cfg2 (loadCircuitBreakerConfig cfg1 cb).1
  = loadCircuitBreakerConfig cfg2 cb.
Proof. now rewrite !loadCircuitBreakerConfig_eq. Qed.

(** A load from bytes returns an error exactly when the decoder refuses
    the bytes; when the decoder accepts them, the breaker is the one
    that loading the decoded configuration gives. *)
Theorem load_from_bytes_fails_only_on_decode (content : list Byte.byte)
    (cb : CircuitBreaker) :
  ((LoadS3ApiConfigurationFromBytes content cb).2 = None <->
   exists cbCfg, ParseS3ConfigurationFromBytes content = inl cbCfg) /\
  (forall cbCfg,
     ParseS3ConfigurationFromBytes content = inl cbCfg ->
     LoadS3ApiConfigurationFromBytes content cb
     = ((loadCircuitBreakerConfig cbCfg cb).1, None)).
Proof.
  unfold LoadS3ApiConfigurationFromBytes.
  destruct (ParseS3ConfigurationFromBytes content) as [cbCfg|err].
  - rewrite loadCircuitBreakerConfig_eq. split.
    + split; [intros _; now exists cbCfg | reflexivity].
    + intros cbCfg' [= <-]. now rewrite loadCircuitBreakerConfig_eq.
  - split.
    + split; [discriminate | intros [cbCfg Hc]; discriminate].
    + intros cbCfg' Hc. discriminate.
Qed.

(** A new breaker has no counter, whatever reading and decoding the
    configuration gave, so every counter starts at 0.  It is enabled
    only when the file was read, its content decoded, and the global
    section of the configuration is enabled with at least one entry. *)
Theorem new_breaker_has_no_counters (read : string + list Byte.byte) :
  counters (NewCircuitBreaker read) = ∅ /\
  (forall key, counter_value key (counters (NewCircuitBreaker read)) = 0) /\
  (Enabled (NewCircuitBreaker read) = true ->
   exists content cbCfg g,
     read = inr content /\
     ParseS3ConfigurationFromBytes content = inl cbCfg /\
     s3_pb.Global cbCfg = Some g /\ s3_pb.Enabled g = true /\
     s3_pb.Actions g <> []).
Proof.
  assert (Hc : counters (NewCircuitBreaker read) = ∅).
  { unfold NewCircuitBreaker, LoadS3ApiConfigurationFromBytes.
    destruct read as [e|content]; [reflexivity |].
    destruct (ParseS3ConfigurationFromBytes content) as [cbCfg|err]; [| reflexivity].
    now rewrite loadCircuitBreakerConfig_eq. }
  split; [exact Hc |]. split.
  - intros key. rewrite Hc. reflexivity.
  - unfold NewCircuitBreaker, LoadS3ApiConfigurationFromBytes.
    destruct read as [e|content]; [discriminate |].
    destruct (ParseS3ConfigurationFromBytes content) as [cbCfg|err] eqn:Hp;
      [| discriminate].
    rewrite loadCircuitBreakerConfig_eq. cbn [fst Enabled].
    destruct (s3_pb.Global cbCfg) as [g|] eqn:Hg; [| discriminate].
    intros [Hen Hlen]%andb_true_iff.
    exists content, cbCfg, g. repeat split; try assumption.
    intros Hnil. rewrite Hnil in Hlen. discriminate.
Qed.

End Breaker.

(** ** Examples and instances *)

(** The wrapping sum leaves small values alone and folds the sum of 1 and
    the largest [int64] onto the smallest. *)
Example add64_small : add64 1 10 = 11.
Proof. reflexivity. Qed.

Example add64_overflow : add64 1 (2 ^ 63 - 1) = - 2 ^ 63.
Proof. reflexivity. Qed.

(** C1.  With the keys of package s3_config joined by a separator, the
    threshold of an entry of the global section is not where the gate
    looks for it.  The loader registers the entry "Put:count" of the
    global section under that very name, the gate's global count check
    for "Put" looks up [Concat [""; "Put"; "count"]], which is
    ":Put:count": there is no threshold at that key, the check passes
    without touching a counter, and two requests are admitted at once
    under a global threshold of 1.  The same entry in the section of
    bucket "b" is registered under [Concat ["b"; "Put:count"]], which is
    the key of the bucket count check, and the second request is
    rejected. *)
Theorem C1_global_threshold_is_not_looked_up :
  let load := loadCircuitBreakerConfig s3_config.Concat in
  let gate := limit s3_config.Concat s3_config.LimitTypeCount s3_config.LimitTypeBytes in
  let r := Sample.request "b" 3 in
  let cb := (load Sample.global_only Sample.fresh).1 in
  let first := gate r "b"%string "Put"%string {| breaker := cb; others := [] |} in
  let second := gate r "b"%string "Put"%string first.2 in
  let cb' := (load (Sample.bucket_count 1) Sample.fresh).1 in
  let first' := gate r "b"%string "Put"%string {| breaker := cb'; others := [] |} in
  let second' := gate r "b"%string "Put"%string first'.2 in
  (Enabled cb = true /\
   limitations cb !! "Put:count"%string = Some 1 /\
   limitations cb
     !! s3_config.Concat [""%string; "Put"%string; s3_config.LimitTypeCount] = None /\
   first.1 = ([], s3err.ErrNone) /\
   second.1 = ([], s3err.ErrNone) /\
   counters (breaker second.2) = ∅) /\
  (limitations cb'
     !! s3_config.Concat ["b"%string; "Put"%string; s3_config.LimitTypeCount] = Some 1 /\
   first'.1.2 = s3err.ErrNone /\
   second'.1 = ([], s3err.ErrTooManyRequest)).
Proof. vm_compute. repeat split; reflexivity. Qed.

(** C3.  The first comparison of a check is made on Go's [int64] sum,
    which wraps around.  Bucket "b" allows 10 bytes of "Put" in flight
    and one request of 1 byte is in flight.  A request that declares
    2^63-1 bytes makes the sum 2^63, far above the threshold, but the
    [int64] sum is -2^63: the check does not reject, the increment is
    applied, the counter reads -2^63, the second comparison passes too and
    the request is admitted.  A request of 10 bytes in the same state is
    rejected. *)
Theorem C3_overflowing_sum_is_not_rejected :
  let load := loadCircuitBreakerConfig s3_config.Concat in
  let gate := limit s3_config.Concat s3_config.LimitTypeCount s3_config.LimitTypeBytes in
  let key := s3_config.Concat ["b"%string; "Put"%string; s3_config.LimitTypeBytes] in
  let cb := (load (Sample.bucket_bytes 10) Sample.fresh).1 in
  let first := gate (Sample.request "b" 1) "b"%string "Put"%string
                 {| breaker := cb; others := [] |} in
  let huge := gate (Sample.request "b" (2 ^ 63 - 1)) "b"%string "Put"%string first.2 in
  let ten := gate (Sample.request "b" 10) "b"%string "Put"%string first.2 in
  limitations cb !! key = Some 10 /\
  first.1.2 = s3err.ErrNone /\
  counter_value key (counters (breaker first.2)) = 1 /\
  int64 (2 ^ 63 - 1) /\
  10 < 1 + (2 ^ 63 - 1) /\
  huge.1 = ([{| rel_counter := key; rel_inc := 2 ^ 63 - 1 |}], s3err.ErrNone) /\
  counter_value key (counters (breaker huge.2)) = - 2 ^ 63 /\
  ten.1 = ([], s3err.ErrRequestBytesExceed).
Proof.
  cbv zeta. unfold int64.
  repeat split; try lia; vm_compute; reflexivity.
Qed.

(** C10, as stated, fails.  Bucket "b" allows 10 bytes of "Put" in
    flight.  First scenario: a request of 5 bytes is in flight when a
    reload lowers the threshold to 0; a request of unknown length (-1)
    then finds the counter at 5, the sum 4 exceeds 0, and the bytes check
    rejects it: the wrapped handler answers [ErrRequestBytesExceed].
    Second scenario, without reload: two requests of unknown length are
    in flight (counter -2), a request of 12 bytes is admitted (counter
    10), the two complete and are released (counter 12); the next request
    of unknown length finds the sum 11 above 10 and is rejected. *)
Lemma C10_unknown_length_is_rejected :
  let load := loadCircuitBreakerConfig s3_config.Concat in
  let gate := limit s3_config.Concat s3_config.LimitTypeCount s3_config.LimitTypeBytes in
  let handler := (Limit s3_config.Concat s3_config.LimitTypeCount
                    s3_config.LimitTypeBytes (fun _ : Request => tt) "Put").1 in
  let key := s3_config.Concat ["b"%string; "Put"%string; s3_config.LimitTypeBytes] in
  let unknown := Sample.request "b" (-1) in
  let cb := (load (Sample.bucket_bytes 10) Sample.fresh).1 in
  let w := {| breaker := cb; others := [] |} in
  (* a reload under a request in flight *)
  let inflight := gate (Sample.request "b" 5) "b"%string "Put"%string w in
  let cb' := (load (Sample.bucket_bytes 0) (breaker inflight.2)).1 in
  (* no reload *)
  let u1 := gate unknown "b"%string "Put"%string w in
  let u2 := gate unknown "b"%string "Put"%string u1.2 in
  let big := gate (Sample.request "b" 12) "b"%string "Put"%string u2.2 in
  let done1 := run_rollback u1.1.1 big.2 in
  let done2 := run_rollback u2.1.1 done1.2 in
  ContentLength unknown < 0 /\
  (inflight.1.2 = s3err.ErrNone /\
   limitations cb' !! key = Some 0 /\
   counter_value key (counters cb') = 5 /\
   (loadCounterAndCompare s3_config.Concat "b" "Put" s3_config.LimitTypeBytes
      (ContentLength unknown) s3err.ErrRequestBytesExceed
      {| breaker := cb'; others := [] |}).1 = (None, s3err.ErrRequestBytesExceed) /\
   (handler unknown {| breaker := cb'; others := [] |}).1
   = Refused s3err.ErrRequestBytesExceed) /\
  (limitations cb !! key = Some 10 /\
   u1.1.2 = s3err.ErrNone /\ u2.1.2 = s3err.ErrNone /\ big.1.2 = s3err.ErrNone /\
   counter_value key (counters (breaker big.2)) = 10 /\
   counter_value key (counters (breaker done2.2)) = 12 /\
   (handler unknown done2.2).1 = Refused s3err.ErrRequestBytesExceed).
Proof.
  cbv zeta. repeat split; try (vm_compute; reflexivity).
Qed.

(** ** The reload scenario of the specification, on a bucket threshold

    Bucket "b" allows one "Put" at a time and a request is in flight
    (counter 1) when a reload raises the threshold to 2: the counter
    still reads 1 after the reload, and a second request is admitted
    (counter 2).  Before the reload it would have been rejected. *)
Example reload_scenario :
  let load := loadCircuitBreakerConfig s3_config.Concat in
  let gate := limit s3_config.Concat s3_config.LimitTypeCount s3_config.LimitTypeBytes in
  let key := s3_config.Concat ["b"%string; "Put"%string; s3_config.LimitTypeCount] in
  let r := Sample.request "b" 3 in
  let cb := (load (Sample.bucket_count 1) Sample.fresh).1 in
  let first := gate r "b"%string "Put"%string {| breaker := cb; others := [] |} in
  let early := gate r "b"%string "Put"%string first.2 in
  let cb' := (load (Sample.bucket_count 2) (breaker first.2)).1 in
  let second := gate r "b"%string "Put"%string {| breaker := cb'; others := [] |} in
  first.1.2 = s3err.ErrNone /\
  early.1.2 = s3err.ErrTooManyRequest /\
  counter_value key (counters cb') = 1 /\
  second.1.2 = s3err.ErrNone /\
  counter_value key (counters (breaker second.2)) = 2.
Proof.
  cbv zeta. repeat split; vm_compute; reflexivity.
Qed.

(** ** Instances of the theorems *)

(** C2 at a breaker whose global section is disabled while bucket "b" has
    its own thresholds registered, with another goroutine scheduled. *)
Lemma C2_witness :
  let w := {| breaker := (loadCircuitBreakerConfig s3_config.Concat
                            Sample.buckets_only Sample.fresh).1;
              others := [[("b:Put:count"%string, 1)]] |} in
  Enabled (breaker w) = false /\
  limitations (breaker w) !! "b:Put:count"%string = Some 5 /\
  (Limit s3_config.Concat s3_config.LimitTypeCount s3_config.LimitTypeBytes
     (fun _ => tt) "Put").1 (Sample.request "b" 3) w = (Served tt, w).
Proof.
  cbv zeta. split; [reflexivity |]. split; [vm_compute; reflexivity |].
  apply (C2_disabled_gate_runs_handler s3_config.Concat s3_config.LimitTypeCount
           s3_config.LimitTypeBytes (fun _ => tt) "Put" (Sample.request "b" 3)).
  reflexivity.
Defined.

(** C4 at a request rejected by the comparison after the increment:
    bucket "b" allows 10 bytes, the request declares 5, and another
    goroutine adds 7 between the first read and the increment. *)
Lemma C4_witness :
  let key := s3_config.Concat ["b"%string; "Put"%string; s3_config.LimitTypeBytes] in
  let w := {| breaker := (loadCircuitBreakerConfig s3_config.Concat
                            (Sample.bucket_bytes 10) Sample.fresh).1;
              others := [[]; [(key, 7)]] |} in
  let gate := limit s3_config.Concat s3_config.LimitTypeCount s3_config.LimitTypeBytes
                (Sample.request "b" 5) "b" "Put" w in
  let released := (run_rollback gate.1.1 gate.2).2 in
  counters_ok (counters (breaker w)) /\
  gate.1 = ([{| rel_counter := key; rel_inc := 5 |}], s3err.ErrRequestBytesExceed) /\
  counter_value key (counters (breaker gate.2)) = 12 /\
  counter_value key (counters (breaker released)) = 7 /\
  exists done,
    others w = done ++ others released /\
    forall k,
      counter_value k (counters (breaker released)) =
      counter_value k (others_run (concat done) (counters (breaker w))).
Proof.
  cbv zeta. split; [apply map_Forall_empty |].
  split; [vm_compute; reflexivity |].
  split; [vm_compute; reflexivity |].
  split; [vm_compute; reflexivity |].
  apply (C4_release_restores_counters s3_config.Concat s3_config.LimitTypeCount
           s3_config.LimitTypeBytes (fun _ => tt) (Sample.request "b" 5) "b" "Put" []).
  apply map_Forall_empty.
Defined.

(** C6 at empty content, which the sample decoder refuses. *)
Lemma C6_witness :
  Sample.decode [] = inr "unexpected end of JSON input"%string /\
  LoadS3ApiConfigurationFromBytes s3_config.Concat Sample.decode []
    (loadCircuitBreakerConfig s3_config.Concat Sample.buckets_only Sample.fresh).1
  = ((loadCircuitBreakerConfig s3_config.Concat Sample.buckets_only Sample.fresh).1,
     Some "unmarshal error: unexpected end of JSON input"%string) /\
  NewCircuitBreaker s3_config.Concat Sample.decode (inr []) = Sample.fresh.
Proof.
  split; [reflexivity |].
  pose proof (C6_decode_failure_keeps_state s3_config.Concat s3_config.LimitTypeCount
                s3_config.LimitTypeBytes Sample.decode []
                "unexpected end of JSON input"
                (loadCircuitBreakerConfig s3_config.Concat Sample.buckets_only
                   Sample.fresh).1 eq_refl) as (Hload & Hnew & _).
  split; [exact Hload | exact Hnew].
Defined.

(** C8 at a configuration whose global section is disabled: the entries
    of the enabled bucket "b" are in the table, and the table is the one
    of the configuration without the disabled bucket "c". *)
Lemma C8_witness :
  let load := loadCircuitBreakerConfig s3_config.Concat in
  let b := ("b"%string, Sample.on [("Put:count"%string, 5); ("Put:bytes"%string, 100)]) in
  let c := ("c"%string, Sample.off [("Put:count"%string, 1)]) in
  s3_pb.Buckets Sample.buckets_only = [] ++ b :: [c] /\
  s3_pb.Buckets Sample.buckets_only = [b] ++ c :: [] /\
  List.NoDup (bucket_keys s3_config.Concat (s3_pb.Buckets Sample.buckets_only)) /\
  limitations (load Sample.buckets_only Sample.fresh).1
    !! s3_config.Concat ["b"%string; "Put:bytes"%string] = Some 100 /\
  limitations (load Sample.buckets_only Sample.fresh).1 =
  limitations (load {| s3_pb.Global := s3_pb.Global Sample.buckets_only;
                       s3_pb.Buckets := [b] ++ [] |} Sample.fresh).1.
Proof.
  cbv zeta.
  assert (Hnd : List.NoDup (bucket_keys s3_config.Concat
                              (s3_pb.Buckets Sample.buckets_only))).
  { vm_compute. repeat constructor; simpl; intuition discriminate. }
  split; [reflexivity |]. split; [reflexivity |]. split; [exact Hnd |]. split.
  - apply (proj1 (C8_bucket_entries_follow_bucket_flag s3_config.Concat
                    Sample.buckets_only Sample.fresh [] [_] "b" _ eq_refl));
      [reflexivity | right; now left | exact Hnd].
  - apply (proj1 (proj2 (C8_bucket_entries_follow_bucket_flag s3_config.Concat
                           Sample.buckets_only Sample.fresh [_] [] "c" _ eq_refl))).
    reflexivity.
Defined.

(** C10 at a request of unknown length (-1) on bucket "b", which allows
    10 bytes and has nothing in flight: the check passes, the counter
    reads -1 in flight and 0 after the release. *)
Lemma C10_witness :
  let key := s3_config.Concat ["b"%string; "Put"%string; s3_config.LimitTypeBytes] in
  let w := {| breaker := (loadCircuitBreakerConfig s3_config.Concat
                            (Sample.bucket_bytes 10) Sample.fresh).1;
              others := [] |} in
  let res := loadCounterAndCompare s3_config.Concat "b" "Put" s3_config.LimitTypeBytes
               (-1) s3err.ErrRequestBytesExceed w in
  let rf := {| rel_counter := key; rel_inc := -1 |} in
  limitations (breaker w) !! key = Some 10 /\
  counters_ok (counters (breaker w)) /\
  res.1 = (Some rf, s3err.ErrNone) /\
  counter_value key (counters (breaker res.2)) = 0 + -1 /\
  counter_value key (counters (breaker (run_release rf res.2).2)) = 0.
Proof.
  cbv zeta.
  assert (Hmax : limitations
                   (loadCircuitBreakerConfig s3_config.Concat (Sample.bucket_bytes 10)
                      Sample.fresh).1
                 !! s3_config.Concat ["b"%string; "Put"%string; s3_config.LimitTypeBytes]
                 = Some 10) by (vm_compute; reflexivity).
  split; [exact Hmax |]. split; [apply map_Forall_empty |].
  apply (proj1 (C10_negative_length_bytes_check s3_config.Concat s3_config.LimitTypeBytes
                  "b" "Put" (-1) 10
                  {| breaker := (loadCircuitBreakerConfig s3_config.Concat
                                   (Sample.bucket_bytes 10) Sample.fresh).1;
                     others := [] |}
                  Hmax eq_refl (map_Forall_empty _) ltac:(lia) ltac:(vm_compute; discriminate))).
  vm_compute. discriminate.
Defined.

(** ** Instances of the further properties *)

(** Alone, bucket "b" allowing 10 bytes and nothing in flight: a check of
    4 bytes is admitted and the counter reads 4. *)
Lemma check_alone_witness :
  let key := s3_config.Concat ["b"%string; "Put"%string; s3_config.LimitTypeBytes] in
  let w := {| breaker := (loadCircuitBreakerConfig s3_config.Concat
                            (Sample.bucket_bytes 10) Sample.fresh).1;
              others := [] |} in
  let res := loadCounterAndCompare s3_config.Concat "b" "Put" s3_config.LimitTypeBytes
               4 s3err.ErrRequestBytesExceed w in
  limitations (breaker w) !! key = Some 10 /\
  res.1 = (Some {| rel_counter := key; rel_inc := 4 |}, s3err.ErrNone) /\
  counter_value key (counters (breaker res.2))
  = counter_value key (counters (breaker w)) + 4.
Proof.
  cbv zeta.
  assert (Hmax : limitations
                   (loadCircuitBreakerConfig s3_config.Concat (Sample.bucket_bytes 10)
                      Sample.fresh).1
                 !! s3_config.Concat ["b"%string; "Put"%string; s3_config.LimitTypeBytes]
                 = Some 10) by (vm_compute; reflexivity).
  split; [exact Hmax |].
  apply (proj1 (check_alone_admits_iff_sum_within_threshold s3_config.Concat
                  "b" "Put" s3_config.LimitTypeBytes 4 s3err.ErrRequestBytesExceed
                  {| breaker := (loadCircuitBreakerConfig s3_config.Concat
                                   (Sample.bucket_bytes 10) Sample.fresh).1;
                     others := [] |} 10 eq_refl Hmax
                  ltac:(unfold int64; vm_compute; split; [discriminate | reflexivity]))).
  vm_compute. discriminate.
Defined.

(** Alone, the same bucket: a check of 11 bytes is rejected, with no
    release. *)
Lemma alone_rejection_witness :
  let w := {| breaker := (loadCircuitBreakerConfig s3_config.Concat
                            (Sample.bucket_bytes 10) Sample.fresh).1;
              others := [] |} in
  let res := loadCounterAndCompare s3_config.Concat "b" "Put" s3_config.LimitTypeBytes
               11 s3err.ErrRequestBytesExceed w in
  res.1.2 <> s3err.ErrNone /\
  res.1 = (None, s3err.ErrRequestBytesExceed).
Proof.
  cbv zeta.
  assert (Hrej : (loadCounterAndCompare s3_config.Concat "b" "Put"
                    s3_config.LimitTypeBytes 11 s3err.ErrRequestBytesExceed
                    {| breaker := (loadCircuitBreakerConfig s3_config.Concat
                                     (Sample.bucket_bytes 10) Sample.fresh).1;
                       others := [] |}).1.2 <> s3err.ErrNone)
    by (vm_compute; discriminate).
  split; [exact Hrej |].
  apply (proj1 (alone_rejection_is_by_first_comparison s3_config.Concat
                  "b" "Put" s3_config.LimitTypeBytes 11 s3err.ErrRequestBytesExceed
                  {| breaker := (loadCircuitBreakerConfig s3_config.Concat
                                   (Sample.bucket_bytes 10) Sample.fresh).1;
                     others := [] |} 10 eq_refl
                  ltac:(vm_compute; reflexivity) Hrej)).
Defined.


(** Bucket "b" limits "Put" only: a "Get" on it has no threshold. *)
Lemma request_without_thresholds_witness :
  let w := {| breaker := (loadCircuitBreakerConfig s3_config.Concat
                            (Sample.bucket_count 1) Sample.fresh).1;
              others := [[("b:Put:count"%string, 1)]] |} in
  Enabled (breaker w) = true /\
  limit s3_config.Concat s3_config.LimitTypeCount s3_config.LimitTypeBytes
    (Sample.request "b" 7) "b" "Get" w = (([], s3err.ErrNone), w) /\
  (Limit s3_config.Concat s3_config.LimitTypeCount s3_config.LimitTypeBytes
     (fun _ => tt) "Get").1 (Sample.request "b" 7) w = (Served tt, w).
Proof.
  cbv zeta. split; [reflexivity |].
  pose proof (request_without_thresholds_is_admitted s3_config.Concat
                s3_config.LimitTypeCount s3_config.LimitTypeBytes (fun _ => tt)
                (Sample.request "b" 7) "b" "Get"
                {| breaker := (loadCircuitBreakerConfig s3_config.Concat
                                 (Sample.bucket_count 1) Sample.fresh).1;
                   others := [[("b:Put:count"%string, 1)]] |}
                ltac:(vm_compute; reflexivity) ltac:(vm_compute; reflexivity)
                ltac:(vm_compute; reflexivity) ltac:(vm_compute; reflexivity))
    as [Hgate Hreply].
  split; [exact Hgate | apply Hreply; vm_compute; reflexivity].
Defined.

(** A request of 5 bytes admitted on bucket "b", whose only threshold for
    "Put" is on bytes, holds that one increment. *)
Lemma admitted_request_witness :
  let key := s3_config.Concat ["b"%string; "Put"%string; s3_config.LimitTypeBytes] in
  let w := {| breaker := (loadCircuitBreakerConfig s3_config.Concat
                            (Sample.bucket_bytes 10) Sample.fresh).1;
              others := [] |} in
  let gate := limit s3_config.Concat s3_config.LimitTypeCount s3_config.LimitTypeBytes
                (Sample.request "b" 5) "b" "Put" w in
  gate.1.2 = s3err.ErrNone /\
  registered_releases s3_config.Concat (limitations (breaker w)) "Put"
    (four_checks s3_config.LimitTypeCount s3_config.LimitTypeBytes
       (Sample.request "b" 5) "b")
  = [{| rel_counter := key; rel_inc := 5 |}] /\
  gate.1.1 =
  registered_releases s3_config.Concat (limitations (breaker w)) "Put"
    (four_checks s3_config.LimitTypeCount s3_config.LimitTypeBytes
       (Sample.request "b" 5) "b").
Proof.
  cbv zeta. split; [vm_compute; reflexivity |]. split; [vm_compute; reflexivity |].
  apply (admitted_request_holds_registered_checks s3_config.Concat
           s3_config.LimitTypeCount s3_config.LimitTypeBytes).
  vm_compute. reflexivity.
Defined.

(** The global section names its entry ":List:count" with threshold 1: a
    "List" without bucket variable is refused with nothing in flight. *)
Lemma request_without_bucket_witness :
  let w := {| breaker := (loadCircuitBreakerConfig s3_config.Concat
                            (Sample.global_literal 1) Sample.fresh).1;
              others := [] |} in
  Enabled (breaker w) = true /\
  counters (breaker w) = ∅ /\
  ((Limit s3_config.Concat s3_config.LimitTypeCount s3_config.LimitTypeBytes
      (fun _ => tt) "List").1 (Sample.request_without_bucket 0) w).1
  = Refused s3err.ErrTooManyRequest.
Proof.
  cbv zeta. split; [reflexivity |]. split; [reflexivity |].
  apply (request_without_bucket_counts_twice s3_config.Concat
           s3_config.LimitTypeCount s3_config.LimitTypeBytes (fun _ => tt) "List"
           (Sample.request_without_bucket 0)
           {| breaker := (loadCircuitBreakerConfig s3_config.Concat
                            (Sample.global_literal 1) Sample.fresh).1;
              others := [] |} 1 eq_refl eq_refl eq_refl
           ltac:(vm_compute; reflexivity) ltac:(vm_compute; reflexivity)
           ltac:(vm_compute; discriminate) ltac:(vm_compute; reflexivity)).
Defined.

(** Bucket "b" allows two "Put" at a time: of four requests entering one
    after the other, two are admitted and two rejected. *)
Lemma bucket_count_capacity_witness :
  let w := {| breaker := (loadCircuitBreakerConfig s3_config.Concat
                            (Sample.bucket_count 2) Sample.fresh).1;
              others := [] |} in
  (enter_all s3_config.Concat s3_config.LimitTypeCount s3_config.LimitTypeBytes
     "b" "Put" [Sample.request "b" 1; Sample.request "b" 2;
                Sample.request "b" 3; Sample.request "b" 4] w).1
  = [s3err.ErrNone; s3err.ErrNone; s3err.ErrTooManyRequest; s3err.ErrTooManyRequest].
Proof.
  cbv zeta.
  apply (proj1 (bucket_count_capacity s3_config.Concat s3_config.LimitTypeCount
                  s3_config.LimitTypeBytes "b" "Put" 2
                  [Sample.request "b" 1; Sample.request "b" 2;
                   Sample.request "b" 3; Sample.request "b" 4]
                  {| breaker := (loadCircuitBreakerConfig s3_config.Concat
                                   (Sample.bucket_count 2) Sample.fresh).1;
                     others := [] |} eq_refl
                  ltac:(vm_compute; reflexivity) ltac:(vm_compute; reflexivity)
                  ltac:(vm_compute; reflexivity) ltac:(vm_compute; reflexivity)
                  ltac:(vm_compute; split; discriminate)
                  ltac:(vm_compute; reflexivity))).
Defined.

(** The threshold found at "b:Put:count" is an entry of the enabled
    bucket "b". *)
Lemma loaded_table_witness :
  limitations (loadCircuitBreakerConfig s3_config.Concat Sample.buckets_only
                 Sample.fresh).1 !! "b:Put:count"%string = Some 5 /\
  exists bucket options action,
    In (bucket, options) (s3_pb.Buckets Sample.buckets_only) /\
    s3_pb.Enabled options = true /\
    In (action, 5) (s3_pb.Actions options) /\
    "b:Put:count"%string = s3_config.Concat [bucket; action].
Proof.
  assert (Hl : limitations (loadCircuitBreakerConfig s3_config.Concat
                              Sample.buckets_only Sample.fresh).1
               !! "b:Put:count"%string = Some 5) by (vm_compute; reflexivity).
  split; [exact Hl |].
  destruct (loaded_table_holds_only_configured_entries s3_config.Concat
              Sample.buckets_only Sample.fresh "b:Put:count" 5 Hl)
    as [(g & Hg & Hen & _)|Hbucket].
  - exfalso. inversion Hg; subst g. discriminate Hen.
  - exact Hbucket.
Defined.

(** The entry "Put:count" of the enabled global section is found under
    that name. *)
Lemma global_entries_witness :
  limitations (loadCircuitBreakerConfig s3_config.Concat Sample.global_only
                 Sample.fresh).1 !! "Put:count"%string = Some 1.
Proof.
  apply (proj2 (global_entries_registered_under_their_names s3_config.Concat
                  Sample.global_only Sample.fresh
                  (Sample.on [("Put:count"%string, 1)]) "Put:count" 1
                  eq_refl eq_refl
                  ltac:(repeat constructor; simpl; tauto)
                  ltac:(now left) ltac:(simpl; tauto))).
Defined.

(** A request of 5 bytes is in flight on bucket "b" (threshold 10): once
    it is released, a request of 5 bytes is admitted again. *)
Lemma release_makes_room_witness :
  let key := s3_config.Concat ["b"%string; "Put"%string; s3_config.LimitTypeBytes] in
  let rf := {| rel_counter := key; rel_inc := 5 |} in
  let w := (limit s3_config.Concat s3_config.LimitTypeCount s3_config.LimitTypeBytes
              (Sample.request "b" 5) "b" "Put"
              {| breaker := (loadCircuitBreakerConfig s3_config.Concat
                               (Sample.bucket_bytes 10) Sample.fresh).1;
                 others := [] |}).2 in
  counter_value key (counters (breaker w)) = 5 /\
  counter_value key (counters (breaker (run_release rf w).2)) = 5 - 5 /\
  (loadCounterAndCompare s3_config.Concat "b" "Put" s3_config.LimitTypeBytes 5
     s3err.ErrRequestBytesExceed (run_release rf w).2).1 = (Some rf, s3err.ErrNone).
Proof.
  cbv zeta. split; [vm_compute; reflexivity |].
  pose proof (release_makes_room s3_config.Concat "b" "Put" s3_config.LimitTypeBytes 5
                s3err.ErrRequestBytesExceed
                (limit s3_config.Concat s3_config.LimitTypeCount
                   s3_config.LimitTypeBytes (Sample.request "b" 5) "b" "Put"
                   {| breaker := (loadCircuitBreakerConfig s3_config.Concat
                                    (Sample.bucket_bytes 10) Sample.fresh).1;
                      others := [] |}).2 10
                ltac:(vm_compute; reflexivity) ltac:(vm_compute; reflexivity)
                ltac:(unfold int64; vm_compute; split; [discriminate | reflexivity])
                ltac:(unfold int64; vm_compute; split; [discriminate | reflexivity])
                ltac:(vm_compute; discriminate)) as (Hval & Hres & _).
  split; [exact Hval | exact Hres].
Defined.
